(** * gobackup-app: a shallow embedding of the backup / restore pipeline

    The development follows the Go sources package by package:
    - [pkg/models/types.go]            records [ChunkInfo], [FileInfo], ...
    - [internal/utils/hash.go]         [CalculateDataHash], [CalculateFileHash]
    - [internal/backup]                [Chunker], [Compressor], backup [Engine]
    - [internal/metadata]              the catalog [Manager]
    - [internal/restore]               the restore [Engine]
    - [internal/watcher]               the debouncing [Watcher]

    Conventions.  Go [int64] values are integers in [Z] with the wrap-around
    of two's complement written out ([wrap64]).  Byte slices are lists of
    [byte].  A Go [map[string]T] is a [gmap string T]; ranging over it is
    modelled by [map_to_list], and every statement below that speaks about a
    map range is phrased so that it does not depend on the enumeration
    order.  The operating system is a parameter of each operation: the
    watched tree is a finite map from cleaned paths to nodes, the backup
    directory is a map from file names to contents together with the
    persisted catalog, and failures of the environment (a write that is
    refused, a file that cannot be read) are decided by explicit oracles. *)

From Stdlib Require Import ZArith List String Ascii Lia Bool.
From Stdlib Require Import DecimalString DecimalN DecimalPos DecimalFacts.
From Stdlib.Strings Require Import Byte.
From stdpp Require Import gmap strings list fin_maps sorting.

Open Scope string_scope.
Open Scope Z_scope.

(** ** Bytes and machine integers *)

Abbreviation bytes := (list byte).

#[global] Instance byte_eq_decision : EqDecision byte := byte_eq_dec.

(** Two's complement wrap-around of a 64-bit signed integer. *)
Definition wrap64 (z : Z) : Z := (z + 2 ^ 63) mod 2 ^ 64 - 2 ^ 63.

(** Go's [a + b] on [int64]. *)
Definition add64 (a b : Z) : Z := wrap64 (a + b).

(** Go's [int64(len(s))]. *)
Definition len64 {A} (s : list A) : Z := wrap64 (Z.of_nat (length s)).

Definition in_int64 (z : Z) : Prop := - 2 ^ 63 <= z < 2 ^ 63.

(** ** Errors

    One constructor per [fmt.Errorf] / propagated error of the sources. *)
Inductive error : Type :=
  | ErrBeyondChunkBoundary            (* "file data extends beyond chunk boundary" *)
  | ErrFileHashMismatch               (* "file hash mismatch" *)
  | ErrCompress (id : Z)              (* "failed to compress chunk %d" *)
  | ErrWriteChunkFile                 (* "failed to write chunk file" *)
  | ErrCreateBackupChunks (e : error) (* "failed to create backup chunks: %w" *)
  | ErrSaveMetadata                   (* error of SaveMetadata *)
  | ErrChunkFileMissing (name : string) (* "chunk file missing: %s" *)
  | ErrChunkNotFound (id : Z)         (* "chunk %d not found" *)
  | ErrReadChunkFile                  (* "failed to read chunk file" *)
  | ErrDecompressChunk                (* "failed to decompress chunk" *)
  | ErrChunkHashVerification (id : Z) (* "chunk %d hash verification failed" *)
  | ErrEnsureDirectory                (* error of EnsureDirectoryExists *)
  | ErrWriteRestoredFile.             (* "failed to write restored file" *)

Inductive result (A : Type) : Type :=
  | Ok (a : A)
  | Err (e : error).
Arguments Ok {A} a.
Arguments Err {A} e.

Definition bind {A B} (r : result A) (k : A -> result B) : result B :=
  match r with
  | Ok a => k a
  | Err e => Err e
  end.

Notation "'do' x <- r ; k" := (bind r (fun x => k))
  (at level 10, x name, r at level 100, k at level 200).

Definition is_ok {A} (r : result A) : bool :=
  match r with Ok _ => true | Err _ => false end.

(** [option] to [result], with the error the source returns at that place. *)
Definition orErr {A} (o : option A) (e : error) : result A :=
  match o with
  | Some a => Ok a
  | None => Err e
  end.

(** ** Paths

    Paths are kept in cleaned form.  [Join dir p] is [filepath.Join] on
    cleaned arguments and [Rel base full] is [filepath.Rel] restricted to
    the paths below [base], the only ones a walk of [base] visits. *)
Definition Join (dir p : string) : string := dir +:+ "/" +:+ p.

Fixpoint stripPrefix (pre s : string) : option string :=
  match pre with
  | EmptyString => Some s
  | String a pre' =>
      match s with
      | EmptyString => None
      | String b s' => if Ascii.eqb a b then stripPrefix pre' s' else None
      end
  end.

Definition Rel (base full : string) : option string :=
  stripPrefix (base +:+ "/") full.

(** ** The file system seen by the backup engine *)

(** A node of the tree: a directory, or a regular file with its contents
    and modification time.  [readable] is false for a file that [os.Stat]
    sees but [os.ReadFile] / [os.Open] refuse. *)
Inductive Node : Type :=
  | Dir
  | File (data : bytes) (mtime : Z) (readable : bool).

(** What [os.Stat] returns: [IsDir()], [Size()], [ModTime()]. *)
Record StatInfo : Type := mkStat {
  IsDir : bool;
  Size : Z;
  ModTime : Z
}.

Definition Stat (fs : gmap string Node) (path : string) : option StatInfo :=
  match fs !! path with
  | None => None
  | Some Dir => Some (mkStat true 0 0)
  | Some (File data mtime _) => Some (mkStat false (len64 data) mtime)
  end.

Definition ReadFile (fs : gmap string Node) (path : string) : option bytes :=
  match fs !! path with
  | Some (File data _ true) => Some data
  | _ => None
  end.

(** ** internal/utils/hash.go and the compressor

    SHA-256 and gzip are external to the repository; they are the
    operations of two interfaces. *)
Class Hasher : Type := {
  sha256Hex : bytes -> string   (* fmt.Sprintf("%x", sha256.Sum256(data)) *)
}.

Class Codec : Type := {
  gzipWrite : bytes -> option bytes;   (* gzip.Writer on a bytes.Buffer *)
  gzipRead : bytes -> option bytes     (* gzip.Reader + io.ReadAll *)
}.

Definition CalculateDataHash `{Hasher} (data : bytes) : string := sha256Hex data.

Definition CalculateFileHash `{Hasher} (fs : gmap string Node) (filePath : string)
  : option string :=
  match ReadFile fs filePath with
  | Some data => Some (sha256Hex data)
  | None => None
  end.

Module Compressor.
Definition Compress `{Codec} (data : bytes) : option bytes := gzipWrite data.
Definition Decompress `{Codec} (data : bytes) : option bytes := gzipRead data.
End Compressor.

(** ** pkg/models/types.go *)

Module ChunkInfo.
Record t : Type := mk {
  ID : Z;
  Filename : string;
  Size : Z;
  Hash : string;
  CompressedSize : Z
}.
End ChunkInfo.

Module FileInfo.
Record t : Type := mk {
  Path : string;
  Size : Z;
  ModTime : Z;
  Hash : string;
  ChunkRefs : list Z;
  IsDeleted : bool
}.
End FileInfo.

Module BackupMetadata.
Record t : Type := mk {
  Version : string;
  CreatedAt : Z;
  UpdatedAt : Z;
  Files : gmap string FileInfo.t;
  Chunks : list ChunkInfo.t
}.
End BackupMetadata.

Module FileEvent.
Record t : Type := mk {
  Path : string;
  Operation : string;   (* CREATE, MODIFY, DELETE, SCAN *)
  Timestamp : Z
}.
End FileEvent.

Module FileChange.
Record t : Type := mk {
  Path : string;
  Operation : string;
  FileInfo : option FileInfo.t   (* *FileInfo, nil as None *)
}.
End FileChange.

(** ** internal/backup: the chunk model and the chunker

    Go's [int] is taken at its 64-bit width, so [c.chunkID++] wraps like
    an [int64]. *)

(** Current chunk size is 5 MB. *)
Definition ChunkSize : Z := 5 * 1024 * 1024.

Module ChunkFileInfo.
Record t : Type := mk {
  Path : string;
  Offset : Z;
  Size : Z;
  Hash : string
}.
End ChunkFileInfo.

Module ChunkData.
Record t : Type := mk {
  ID : Z;
  Data : bytes;
  Files : list ChunkFileInfo.t;
  Hash : string
}.

(** The composite literal [ChunkData{ID: id}]. *)
Definition new (id : Z) : t := mk id [] [] "".
End ChunkData.

(** The slice expression [s[low:high]]; [None] is the run-time panic
    "slice bounds out of range". *)
Definition slice (s : bytes) (low high : Z) : option bytes :=
  if (0 <=? low) && (low <=? high) && (high <=? Z.of_nat (length s))
  then Some (take (Z.to_nat (high - low)) (drop (Z.to_nat low) s))
  else None.

Module Chunker.
Record t : Type := mk { chunkID : Z }.

Definition NewChunker : t := mk 1.

(** The variables of the loop of [CreateChunks]. *)
Record vars : Type := mkVars {
  chunks : list ChunkData.t;
  currentChunk : ChunkData.t;
  currentSize : Z;
  c : t
}.

(** [currentChunk.Hash = ...; chunks = append(chunks, currentChunk)]. *)
Definition sealed `{Hasher} (ch : ChunkData.t) : ChunkData.t :=
  ChunkData.mk (ChunkData.ID ch) (ChunkData.Data ch) (ChunkData.Files ch)
               (CalculateDataHash (ChunkData.Data ch)).

(** The test that closes the chunk in progress before [fileSize] more
    bytes are added. *)
Definition mustSeal (v : vars) (fileSize : Z) : bool :=
  (ChunkSize <? add64 (currentSize v) fileSize)
  && (0 <? length (ChunkData.Files (currentChunk v)))%nat.

Definition sealCurrent `{Hasher} (v : vars) : vars :=
  mkVars (chunks v ++ [sealed (currentChunk v)])
         (ChunkData.new (chunkID (c v)))
         0
         (mk (wrap64 (chunkID (c v) + 1))).

(** "Add file to the current chunk". *)
Definition addFile (v : vars) (filePath : string) (fileSize : Z)
    (fileData : bytes) (fileHash : string) : vars :=
  let cur := currentChunk v in
  mkVars (chunks v)
         (ChunkData.mk (ChunkData.ID cur)
            (ChunkData.Data cur ++ fileData)
            (ChunkData.Files cur ++
               [ChunkFileInfo.mk filePath (len64 (ChunkData.Data cur)) fileSize fileHash])
            (ChunkData.Hash cur))
         (add64 (currentSize v) fileSize)
         (c v).

(** One iteration of [for _, filePath := range files]. *)
Definition step `{Hasher} (fs : gmap string Node) (v : vars) (filePath : string) : vars :=
  match Stat fs filePath with
  | None => v
  | Some fileInfo =>
      if IsDir fileInfo then v
      else
        let v1 := if mustSeal v (Size fileInfo) then sealCurrent v else v in
        match ReadFile fs filePath with
        | None => v1
        | Some fileData =>
            match CalculateFileHash fs filePath with
            | None => v1
            | Some fileHash => addFile v1 filePath (Size fileInfo) fileData fileHash
            end
        end
  end.

Definition init (c0 : t) : vars :=
  mkVars [] (ChunkData.new (chunkID c0)) 0 (mk (wrap64 (chunkID c0 + 1))).

(** The chunks returned at the end of the loop. *)
Definition finish `{Hasher} (v : vars) : list ChunkData.t :=
  if (0 <? length (ChunkData.Files (currentChunk v)))%nat
  then chunks v ++ [sealed (currentChunk v)]
  else chunks v.

(** [CreateChunks]: the chunks and the chunker after the call.  The
    error result of the Go function is always [nil]. *)
Definition CreateChunks `{Hasher} (fs : gmap string Node) (c0 : t) (files : list string)
  : list ChunkData.t * t :=
  let v := foldl (step fs) (init c0) files in
  (finish v, c v).

(** [ExtractFileFromChunk]; [None] is a panic of the slice expression. *)
Definition ExtractFileFromChunk `{Hasher} (chunkData : bytes) (fileInfo : ChunkFileInfo.t)
  : option (result bytes) :=
  let off := ChunkFileInfo.Offset fileInfo in
  let size := ChunkFileInfo.Size fileInfo in
  if len64 chunkData <? add64 off size then Some (Err ErrBeyondChunkBoundary)
  else
    match slice chunkData off (add64 off size) with
    | None => None
    | Some data =>
        if String.eqb (CalculateDataHash data) (ChunkFileInfo.Hash fileInfo)
        then Some (Ok data)
        else Some (Err ErrFileHashMismatch)
    end.
End Chunker.

(** ** internal/metadata: the catalog manager *)

(** The part of the disk the backup lives on: plain files by full path
    (the chunk files), and each [metadata.json] as the catalog it decodes
    to ([json.MarshalIndent] / [json.Unmarshal] are taken as inverse). *)
Record Disk : Type := mkDisk {
  files : gmap string bytes;
  catalogs : gmap string BackupMetadata.t
}.

(** What the operating system does for the backup engine: the watched
    tree, the clock, and which writes it accepts. *)
Record Env : Type := mkEnv {
  tree : gmap string Node;
  now : Z;
  ensureDirOk : string -> bool;    (* utils.EnsureDirectoryExists(path) *)
  writeChunkOk : string -> bool;   (* os.WriteFile(chunkPath, ...) *)
  persistOk : string -> bool       (* os.WriteFile(tempPath) and os.Rename *)
}.

Module Manager.
Record t : Type := mk {
  backupPath : string;
  metadata : BackupMetadata.t
}.

Definition NewManager (now : Z) (backupPath : string) : t :=
  mk backupPath (BackupMetadata.mk "1.0" now 0 ∅ []).

Definition metadataPath (m : t) : string := Join (backupPath m) "metadata.json".

Definition withFiles (m : t) (fs : gmap string FileInfo.t) : t :=
  let md := metadata m in
  mk (backupPath m)
     (BackupMetadata.mk (BackupMetadata.Version md) (BackupMetadata.CreatedAt md)
        (BackupMetadata.UpdatedAt md) fs (BackupMetadata.Chunks md)).

Definition withChunks (m : t) (cs : list ChunkInfo.t) : t :=
  let md := metadata m in
  mk (backupPath m)
     (BackupMetadata.mk (BackupMetadata.Version md) (BackupMetadata.CreatedAt md)
        (BackupMetadata.UpdatedAt md) (BackupMetadata.Files md) cs).

Definition withUpdatedAt (m : t) (u : Z) : t :=
  let md := metadata m in
  mk (backupPath m)
     (BackupMetadata.mk (BackupMetadata.Version md) (BackupMetadata.CreatedAt md)
        u (BackupMetadata.Files md) (BackupMetadata.Chunks md)).

Definition Files (m : t) : gmap string FileInfo.t := BackupMetadata.Files (metadata m).
Definition Chunks (m : t) : list ChunkInfo.t := BackupMetadata.Chunks (metadata m).

(** A missing [metadata.json] is not an error. *)
Definition LoadMetadata (d : Disk) (m : t) : t :=
  match catalogs d !! metadataPath m with
  | None => m
  | Some md => mk (backupPath m) md
  end.

(** [SaveMetadata]: the manager, the disk and the error after the call. *)
Definition SaveMetadata (env : Env) (d : Disk) (m : t) : t * Disk * option error :=
  if negb (ensureDirOk env (backupPath m)) then (m, d, Some ErrSaveMetadata)
  else
    let m' := withUpdatedAt m (now env) in
    if persistOk env (metadataPath m)
    then (m', mkDisk (files d) (<[metadataPath m := metadata m']> (catalogs d)), None)
    else (m', d, Some ErrSaveMetadata).

Definition GetFileInfo (m : t) (path : string) : option FileInfo.t := Files m !! path.

Definition GetMetadata (m : t) : BackupMetadata.t := metadata m.

Definition UpdateFileInfo (m : t) (path : string) (info : FileInfo.t) : t :=
  withFiles m (<[path := info]> (Files m)).

Definition markDeleted (info : FileInfo.t) : FileInfo.t :=
  FileInfo.mk (FileInfo.Path info) (FileInfo.Size info) (FileInfo.ModTime info)
              (FileInfo.Hash info) (FileInfo.ChunkRefs info) true.

Definition MarkFileDeleted (m : t) (path : string) : t :=
  match Files m !! path with
  | Some info => withFiles m (<[path := markDeleted info]> (Files m))
  | None => m
  end.

Definition AddChunk (m : t) (chunk : ChunkInfo.t) : t :=
  withChunks m (Chunks m ++ [chunk]).

(** [filepath.Walk(watchPath, ...)]: the paths below the watched
    directory.  The watched path itself is a directory, which the
    callback skips. *)
Definition Walk (fs : gmap string Node) (root : string) : list string :=
  filter (fun path => is_Some (Rel root path)) (map_to_list fs).*1.

(** The callback of the walk in [DetectChanges]. *)
Definition visit `{Hasher} (fs : gmap string Node) (watchPath : string)
    (currentFiles : gmap string FileInfo.t) (path : string) : gmap string FileInfo.t :=
  match Stat fs path with
  | None => currentFiles
  | Some info =>
      if IsDir info then currentFiles
      else
        match Rel watchPath path with
        | None => currentFiles
        | Some relPath =>
            match CalculateFileHash fs path with
            | None => currentFiles
            | Some hash =>
                <[relPath := FileInfo.mk relPath (Size info) (ModTime info) hash [] false]>
                  currentFiles
            end
        end
  end.

Definition currentFiles `{Hasher} (fs : gmap string Node) (watchPath : string)
  : gmap string FileInfo.t :=
  foldl (visit fs watchPath) ∅ (Walk fs watchPath).

(** "Check for new or modified files": the body of the first loop.
    Every iteration has its own [currentInfo] (Go 1.22 loop variables),
    so the pointer stored in the change is the value of that iteration. *)
Definition newOrModified (m : t) (kv : string * FileInfo.t) : option FileChange.t :=
  let '(path, currentInfo) := kv in
  match Files m !! path with
  | Some storedInfo =>
      if negb (FileInfo.IsDeleted storedInfo)
         && (negb (String.eqb (FileInfo.Hash storedInfo) (FileInfo.Hash currentInfo))
             || negb (Z.eqb (FileInfo.ModTime storedInfo) (FileInfo.ModTime currentInfo)))
      then Some (FileChange.mk path "MODIFY" (Some currentInfo))
      else None
  | None => Some (FileChange.mk path "CREATE" (Some currentInfo))
  end.

(** "Check for deleted files": the body of the second loop. *)
Definition deleted (current : gmap string FileInfo.t) (kv : string * FileInfo.t)
  : option FileChange.t :=
  let '(path, storedInfo) := kv in
  if negb (FileInfo.IsDeleted storedInfo)
  then match current !! path with
       | None => Some (FileChange.mk path "DELETE" None)
       | Some _ => None
       end
  else None.

(** [DetectChanges]; the walk callback never returns an error, so the
    error result is always [nil]. *)
Definition DetectChanges `{Hasher} (fs : gmap string Node) (m : t) (watchPath : string)
  : list FileChange.t :=
  let current := currentFiles fs watchPath in
  omap (newOrModified m) (map_to_list current)
  ++ omap (deleted current) (map_to_list (Files m)).
End Manager.

(** ** internal/backup/engine.go: the backup engine *)

(** [fmt.Sprintf("%06d", z)]: decimal digits, padded with zeros to six
    characters, the sign included in the width. *)
Definition padZeros (width : nat) (d : Decimal.uint) : Decimal.uint :=
  Nat.iter (width - Decimal.nb_digits d) Decimal.D0 d.

Definition Sprintf06d (z : Z) : string :=
  match z with
  | Zneg p => "-" +:+ NilEmpty.string_of_uint (padZeros 5 (Pos.to_uint p))
  | _ => NilEmpty.string_of_uint (padZeros 6 (N.to_uint (Z.to_N z)))
  end.

(** [fmt.Sprintf("chunk_%06d.gz", id)] *)
Definition chunkFilename (id : Z) : string := "chunk_" +:+ Sprintf06d id +:+ ".gz".

Module Engine.
Record t : Type := mk {
  watchPath : string;
  backupPath : string;
  metadata : Manager.t;
  chunker : Chunker.t
}.

Definition NewEngine (now : Z) (watchPath backupPath : string) : t :=
  mk watchPath backupPath (Manager.NewManager now backupPath) Chunker.NewChunker.

Definition withMetadata (e : t) (m : Manager.t) : t :=
  mk (watchPath e) (backupPath e) m (chunker e).

Definition withChunker (e : t) (c : Chunker.t) : t :=
  mk (watchPath e) (backupPath e) (metadata e) c.

(** [Initialize]: create the backup directory, load the catalog. *)
Definition Initialize (env : Env) (d : Disk) (e : t) : t * option error :=
  if negb (ensureDirOk env (backupPath e)) then (e, Some ErrEnsureDirectory)
  else (withMetadata e (Manager.LoadMetadata d (metadata e)), None).

(** "Update file info with chunk references": one iteration of the
    inner loop of [createBackupChunks].  [filepath.Rel]'s error is
    dropped by the source, which leaves the empty path. *)
Definition addChunkRef (watch : string) (id : Z) (m : Manager.t)
    (fileInfo : ChunkFileInfo.t) : Manager.t :=
  let relPath := default "" (Rel watch (ChunkFileInfo.Path fileInfo)) in
  match Manager.GetFileInfo m relPath with
  | Some storedInfo =>
      Manager.UpdateFileInfo m relPath
        (FileInfo.mk (FileInfo.Path storedInfo) (FileInfo.Size storedInfo)
           (FileInfo.ModTime storedInfo) (FileInfo.Hash storedInfo)
           (FileInfo.ChunkRefs storedInfo ++ [id]) (FileInfo.IsDeleted storedInfo))
  | None => m
  end.

(** The body of [for _, chunk := range chunks] in [createBackupChunks]. *)
Definition storeChunk `{Codec} (env : Env) (e : t) (d : Disk) (chunk : ChunkData.t)
  : t * Disk * option error :=
  match Compressor.Compress (ChunkData.Data chunk) with
  | None => (e, d, Some (ErrCompress (ChunkData.ID chunk)))
  | Some compressed =>
      let name := chunkFilename (ChunkData.ID chunk) in
      let chunkPath := Join (backupPath e) name in
      if negb (writeChunkOk env chunkPath) then (e, d, Some ErrWriteChunkFile)
      else
        let d' := mkDisk (<[chunkPath := compressed]> (files d)) (catalogs d) in
        let chunkInfo :=
          ChunkInfo.mk (ChunkData.ID chunk) name (len64 (ChunkData.Data chunk))
                       (ChunkData.Hash chunk) (len64 compressed) in
        let m1 := Manager.AddChunk (metadata e) chunkInfo in
        let m2 := foldl (addChunkRef (watchPath e) (ChunkData.ID chunk)) m1
                        (ChunkData.Files chunk) in
        (withMetadata e m2, d', None)
  end.

Fixpoint storeChunks `{Codec} (env : Env) (e : t) (d : Disk) (chunks : list ChunkData.t)
  : t * Disk * option error :=
  match chunks with
  | [] => (e, d, None)
  | chunk :: rest =>
      match storeChunk env e d chunk with
      | (e', d', None) => storeChunks env e' d' rest
      | failed => failed
      end
  end.

Definition createBackupChunks `{Hasher} `{Codec} (env : Env) (e : t) (d : Disk)
    (files : list string) : t * Disk * option error :=
  let '(chunks, c') := Chunker.CreateChunks (tree env) (chunker e) files in
  storeChunks env (withChunker e c') d chunks.

(** The body of [for _, change := range changes] in [handleChanges]:
    the catalog and [filesToBackup]. *)
Definition applyChange (watch : string) (acc : Manager.t * list string)
    (change : FileChange.t) : Manager.t * list string :=
  let '(m, filesToBackup) := acc in
  let op := FileChange.Operation change in
  if String.eqb op "CREATE" || String.eqb op "MODIFY" then
    match FileChange.FileInfo change with
    | Some info =>
        (Manager.UpdateFileInfo m (FileChange.Path change) info,
         (filesToBackup ++ [Join watch (FileChange.Path change)])%list)
    | None => acc
    end
  else if String.eqb op "DELETE" then
    (Manager.MarkFileDeleted m (FileChange.Path change), filesToBackup)
  else acc.

Definition handleChanges `{Hasher} `{Codec} (env : Env) (e : t) (d : Disk)
    (changes : list FileChange.t) : t * Disk * option error :=
  let '(m1, filesToBackup) := foldl (applyChange (watchPath e)) (metadata e, []) changes in
  let e1 := withMetadata e m1 in
  let '(e2, disk2, err) :=
    if (0 <? length filesToBackup)%nat
    then createBackupChunks env e1 d filesToBackup
    else (e1, d, None) in
  match err with
  | Some err' => (e2, disk2, Some (ErrCreateBackupChunks err'))
  | None =>
      let '(m3, disk3, saved) := Manager.SaveMetadata env disk2 (metadata e2) in
      (withMetadata e2 m3, disk3, saved)
  end.

Definition PerformFullBackup `{Hasher} `{Codec} (env : Env) (e : t) (d : Disk)
  : t * Disk * option error :=
  handleChanges env e d (Manager.DetectChanges (tree env) (metadata e) (watchPath e)).
End Engine.

(** ** internal/restore: the restore engine *)

(** What the operating system does for the restore engine. *)
Record RestoreEnv : Type := mkRestoreEnv {
  rnow : Z;
  mkdirOk : string -> bool;     (* EnsureDirectoryExists(filepath.Dir(path)) *)
  readOk : string -> bool;      (* os.ReadFile of an existing chunk file *)
  writeOk : string -> bool;     (* os.WriteFile(targetFilePath, ...) *)
  chtimesOk : string -> bool    (* os.Chtimes(targetFilePath, ...) *)
}.

Module Restore.
Record t : Type := mk {
  backupPath : string;
  targetPath : string;
  metadata : Manager.t
}.

Definition NewEngine (now : Z) (backupPath targetPath : string) : t :=
  mk backupPath targetPath (Manager.NewManager now backupPath).

(** [Initialize]: load the catalog.  (A failure to load it or to create
    the target directory ends the program before any file is restored.) *)
Definition Initialize (d : Disk) (e : t) : t :=
  mk (backupPath e) (targetPath e) (Manager.LoadMetadata d (metadata e)).

(** [ValidateBackup]: the first chunk of the list whose file is absent. *)
Fixpoint firstMissing (d : Disk) (backup : string) (chunks : list ChunkInfo.t)
  : option error :=
  match chunks with
  | [] => None
  | chunk :: rest =>
      match files d !! Join backup (ChunkInfo.Filename chunk) with
      | None => Some (ErrChunkFileMissing (ChunkInfo.Filename chunk))
      | Some _ => firstMissing d backup rest
      end
  end.

Definition ValidateBackup (d : Disk) (e : t) : option error :=
  firstMissing d (backupPath e) (Manager.Chunks (metadata e)).

(** [chunkMap[chunk.ID] = chunk] for every chunk of the list. *)
Definition chunkMapOf (chunks : list ChunkInfo.t) : gmap Z ChunkInfo.t :=
  foldl (fun acc chunk => <[ChunkInfo.ID chunk := chunk]> acc) ∅ chunks.

(** One iteration of [for _, chunkID := range fileInfo.ChunkRefs]: the
    whole decompressed payload of the chunk is appended. *)
Definition readChunk `{Hasher} `{Codec} (renv : RestoreEnv) (d : Disk) (e : t)
    (chunkMap : gmap Z ChunkInfo.t) (chunkID : Z) : result bytes :=
  do chunkInfo <- orErr (chunkMap !! chunkID) (ErrChunkNotFound chunkID);
  let chunkPath := Join (backupPath e) (ChunkInfo.Filename chunkInfo) in
  do compressedData <-
    orErr (if readOk renv chunkPath then files d !! chunkPath else None) ErrReadChunkFile;
  do chunkData <- orErr (Compressor.Decompress compressedData) ErrDecompressChunk;
  if String.eqb (CalculateDataHash chunkData) (ChunkInfo.Hash chunkInfo)
  then Ok chunkData
  else Err (ErrChunkHashVerification chunkID).

Fixpoint readChunks `{Hasher} `{Codec} (renv : RestoreEnv) (d : Disk) (e : t)
    (chunkMap : gmap Z ChunkInfo.t) (fileData : bytes) (refs : list Z) : result bytes :=
  match refs with
  | [] => Ok fileData
  | chunkID :: rest =>
      do chunkData <- readChunk renv d e chunkMap chunkID;
      readChunks renv d e chunkMap (fileData ++ chunkData) rest
  end.

(** The bytes [restoreFile] writes for a record, or the error it returns
    before writing. *)
Definition fileBytes `{Hasher} `{Codec} (renv : RestoreEnv) (d : Disk) (e : t)
    (chunkMap : gmap Z ChunkInfo.t) (fileInfo : FileInfo.t) : result bytes :=
  let targetFilePath := Join (targetPath e) (FileInfo.Path fileInfo) in
  if negb (mkdirOk renv targetFilePath) then Err ErrEnsureDirectory
  else
    do fileData <- readChunks renv d e chunkMap [] (FileInfo.ChunkRefs fileInfo);
    if writeOk renv targetFilePath then Ok fileData else Err ErrWriteRestoredFile.

(** [restoreFile]: the target tree after the call and the error.  A
    failing [os.Chtimes] is only a warning: the file keeps the time of
    the write. *)
Definition restoreFile `{Hasher} `{Codec} (renv : RestoreEnv) (d : Disk) (e : t)
    (target : gmap string Node) (fileInfo : FileInfo.t)
    (chunkMap : gmap Z ChunkInfo.t) : gmap string Node * option error :=
  let targetFilePath := Join (targetPath e) (FileInfo.Path fileInfo) in
  match fileBytes renv d e chunkMap fileInfo with
  | Err err => (target, Some err)
  | Ok fileData =>
      let mtime := if chtimesOk renv targetFilePath
                   then FileInfo.ModTime fileInfo else rnow renv in
      (<[targetFilePath := File fileData mtime true]> target, None)
  end.

(** The body of [for _, fileInfo := range meta.Files] in [RestoreAll]:
    the target tree and the log of failed files. *)
Definition restoreOne `{Hasher} `{Codec} (renv : RestoreEnv) (d : Disk) (e : t)
    (chunkMap : gmap Z ChunkInfo.t)
    (acc : gmap string Node * list (string * error)) (kv : string * FileInfo.t)
  : gmap string Node * list (string * error) :=
  let '(target, failed) := acc in
  let fileInfo := kv.2 in
  if FileInfo.IsDeleted fileInfo then acc
  else
    match restoreFile renv d e target fileInfo chunkMap with
    | (target', None) => (target', failed)
    | (target', Some err) =>
        (target', (failed ++ [(FileInfo.Path fileInfo, err)])%list)
    end.

(** [RestoreAll]: the target tree, the failures that were logged and
    skipped, and the error returned. *)
Definition RestoreAll `{Hasher} `{Codec} (renv : RestoreEnv) (d : Disk) (e : t)
    (target : gmap string Node)
  : gmap string Node * list (string * error) * option error :=
  match ValidateBackup d e with
  | Some err => (target, [], Some err)
  | None =>
      let meta := Manager.GetMetadata (metadata e) in
      let chunkMap := chunkMapOf (BackupMetadata.Chunks meta) in
      (foldl (restoreOne renv d e chunkMap) (target, [])
             (map_to_list (BackupMetadata.Files meta)), None)
  end.
(** [ListFiles]: the two counters of the summary line, active and
    deleted files.  (The listing itself is printed output; the error
    returned is always [nil].) *)
Definition ListFiles (e : t) : nat * nat :=
  foldl (fun counts (kv : string * FileInfo.t) =>
           if FileInfo.IsDeleted kv.2
           then (counts.1, S counts.2)
           else (S counts.1, counts.2))
        (0%nat, 0%nat)
        (map_to_list (BackupMetadata.Files (Manager.GetMetadata (metadata e)))).
End Restore.

(** ** internal/watcher: the debouncer

    Time is a logical clock in milliseconds.  [time.AfterFunc(500ms, f)]
    is an entry of the timer table with its deadline; [timer.Stop()]
    followed by the assignment [w.debouncer[path] = ...] replaces the
    pending entry, so the stopped callback never runs.  A timer that
    reaches its deadline runs its callback in one step ([fire]); the
    consumer of [changeChan] is always ready, so a send that is not cut by
    cancellation appends to the delivered events. *)
Module Watcher.
Definition Rename : Z := 8.

(** fsnotify.Event *)
Record Event : Type := mkEvent {
  Name : string;
  Op : Z
}.




(** A pending [time.AfterFunc]: when it fires and the event its closure
    captured. *)
Record Timer : Type := mkTimer {
  deadline : Z;
  captured : Event
}.

Record t : Type := mk {
  debouncer : gmap string Timer;
  changeChan : list FileEvent.t;   (* events delivered so far, oldest first *)
  cancelled : bool                 (* w.ctx is done *)
}.


Definition Close (w : t) : t := mk (debouncer w) (changeChan w) true.





Definition earlier (a b : string * Timer) : Prop := deadline a.2 <= deadline b.2.

#[global] Instance earlier_dec : RelDecision earlier :=
  fun a b => decide (deadline a.2 <= deadline b.2).







End Watcher.

(** ** cmd/main.go: the command line *)

Module Main.
(** The flags of the root command, with their parsed values. *)
Record Flags : Type := mkFlags {
  watchPath : string;
  backupPath : string;
  targetPath : string;
  refreshRate : Z;
  restoreMode : bool;
  listMode : bool;
  verifyMode : bool
}.

(** What [runApp] goes on to do: print a message and the usage and leave
    with status 1, or call one of the four operations. *)
Inductive Action : Type :=
  | BackupPathRequired
  | NoOperationMode
  | ManyOperationModes
  | TargetPathRequired
  | listBackupFiles
  | verifyBackup
  | runRestore
  | runBackup
  | Return.   (* the end of the function body *)

Definition modeCount (f : Flags) : Z :=
  let modeCount := 0 in
  let modeCount := if listMode f then modeCount + 1 else modeCount in
  let modeCount := if verifyMode f then modeCount + 1 else modeCount in
  let modeCount := if restoreMode f then modeCount + 1 else modeCount in
  if negb (String.eqb (watchPath f) "") then modeCount + 1 else modeCount.

Definition runApp (f : Flags) : Action :=
  if String.eqb (backupPath f) "" then BackupPathRequired
  else if modeCount f =? 0 then NoOperationMode
  else if 1 <? modeCount f then ManyOperationModes
  else if listMode f then listBackupFiles
  else if verifyMode f then verifyBackup
  else if restoreMode f then
    if String.eqb (targetPath f) "" then TargetPathRequired else runRestore
  else if negb (String.eqb (watchPath f) "") then runBackup
  else Return.

(** The batch [runBackup] hands to [engine.ProcessChanges] for an event
    of the watcher: its path and operation, and no file record. *)
Definition changesOfEvent (event : FileEvent.t) : list FileChange.t :=
  [FileChange.mk (FileEvent.Path event) (FileEvent.Operation event) None].
End Main.

(** ** Stand-ins for the external primitives, used by the examples

    A hash that lists the bytes it is given (so it has no collisions), and
    a codec that frames the payload with the two gzip magic bytes. *)
Definition listingHasher : Hasher := {| sha256Hex := string_of_list_byte |}.

Definition framingCodec : Codec :=
  {| gzipWrite := fun data => Some (x1f :: x8b :: data);
     gzipRead := fun data =>
       match data with
       | x1f :: x8b :: payload => Some payload
       | _ => None
       end |}.

(** An operating system that refuses nothing. *)
Definition calmEnv (tree : gmap string Node) (now : Z) : Env :=
  mkEnv tree now (fun _ => true) (fun _ => true) (fun _ => true).

Definition calmRestoreEnv (now : Z) : RestoreEnv :=
  mkRestoreEnv now (fun _ => true) (fun _ => true) (fun _ => true) (fun _ => true).

Definition emptyDisk : Disk := mkDisk ∅ ∅.

(** A watched directory with two small files. *)
Definition smallTree : gmap string Node :=
  <["/w/a.txt" := File [x01] 100 true]>
    (<["/w/b.txt" := File [x02; x03] 200 true]> (<["/w" := Dir]> ∅)).

(** The chunk the packer makes of the two files of [smallTree]. *)
Definition smallChunk : ChunkData.t :=
  ChunkData.mk 1 [x01; x02; x03]
    [ChunkFileInfo.mk "/w/a.txt" 0 1 (string_of_list_byte [x01]);
     ChunkFileInfo.mk "/w/b.txt" 1 2 (string_of_list_byte [x02; x03])]
    (string_of_list_byte [x01; x02; x03]).

(** Files of 2, 4 and 6 MiB, and a tree that holds them. *)
Definition twoMiB : bytes := replicate (Z.to_nat (2 * 1024 * 1024)) x00.
Definition fourMiB : bytes := replicate (Z.to_nat (4 * 1024 * 1024)) x00.
Definition sixMiB : bytes := replicate (Z.to_nat (6 * 1024 * 1024)) x00.

Definition largeTree : gmap string Node :=
  <["/w/a.txt" := File twoMiB 0 true]>
    (<["/w/b.txt" := File fourMiB 0 true]>
       (<["/w/c.bin" := File sixMiB 0 true]> ∅)).

(** A first process backs up [smallTree]; a second process starts on the
    disk the first one left, and backs up the tree with one more file. *)
Definition grownTree : gmap string Node :=
  <["/w/c.txt" := File [x09] 300 true]> smallTree.

Definition firstRun : Engine.t * Disk * option error :=
  @Engine.PerformFullBackup listingHasher framingCodec
    (calmEnv smallTree 10) (Engine.NewEngine 5 "/w" "/b") emptyDisk.

Definition restarted : Engine.t :=
  (Engine.Initialize (calmEnv grownTree 20) firstRun.1.2 (Engine.NewEngine 15 "/w" "/b")).1.

Definition secondRun : Engine.t * Disk * option error :=
  @Engine.PerformFullBackup listingHasher framingCodec
    (calmEnv grownTree 20) restarted firstRun.1.2.

(** A batch of the two large files in which the operating system refuses
    the file of the second chunk. *)
Definition pickyEnv : Env :=
  mkEnv largeTree 10 (fun _ => true)
        (fun path => negb (String.eqb path "/b/chunk_000002.gz")) (fun _ => true).

Definition largeChanges : list FileChange.t :=
  [ FileChange.mk "a.txt" "CREATE"
      (Some (FileInfo.mk "a.txt" (2 * 1024 * 1024) 0 "" [] false));
    FileChange.mk "b.txt" "CREATE"
      (Some (FileInfo.mk "b.txt" (4 * 1024 * 1024) 0 "" [] false)) ].

Definition largeChunkA : ChunkData.t :=
  ChunkData.mk 1 twoMiB
    [ChunkFileInfo.mk "/w/a.txt" 0 (Z.of_nat (length twoMiB))
       (CalculateDataHash (H:=listingHasher) twoMiB)]
    (CalculateDataHash (H:=listingHasher) twoMiB).

Definition largeChunkB : ChunkData.t :=
  ChunkData.mk 2 fourMiB
    [ChunkFileInfo.mk "/w/b.txt" 0 (Z.of_nat (length fourMiB))
       (CalculateDataHash (H:=listingHasher) fourMiB)]
    (CalculateDataHash (H:=listingHasher) fourMiB).

(** After the first backup [a.txt] is removed, a full backup records the
    deletion, and then a new [a.txt] is written. *)
Definition shrunkTree : gmap string Node := delete "/w/a.txt" smallTree.

Definition afterDelete : Engine.t * Disk * option error :=
  @Engine.PerformFullBackup listingHasher framingCodec
    (calmEnv shrunkTree 20) firstRun.1.1 firstRun.1.2.

Definition regrownTree : gmap string Node :=
  <["/w/a.txt" := File [x05; x06] 400 true]> shrunkTree.



Definition restorer (d : Disk) : Restore.t :=
  Restore.Initialize d (Restore.NewEngine 30 "/b" "/t").

(** The first backup again, with the changes of the walk taken in the
    other order (the order of a Go map range is not fixed). *)
Definition firstRunReversed : Engine.t * Disk * option error :=
  @Engine.handleChanges listingHasher framingCodec
    (calmEnv smallTree 10) (Engine.NewEngine 5 "/w" "/b") emptyDisk
    (reverse (Manager.DetectChanges (H:=listingHasher) smallTree
                (Engine.metadata (Engine.NewEngine 5 "/w" "/b")) "/w")).

(** ** Vocabulary of the statements *)

(** The length of the regular file at [path], 0 when there is none. *)
Definition fileLen (fs : gmap string Node) (path : string) : Z :=
  match fs !! path with
  | Some (File data _ _) => Z.of_nat (length data)
  | _ => 0
  end.

(** The bytes a batch of paths holds; a Go program cannot hold [2^63]. *)
Definition totalLen (fs : gmap string Node) (paths : list string) : Z :=
  foldr (fun path acc => fileLen fs path + acc) 0 paths.

(** [layout off ranges data]: the ranges tile [data] from offset [off] on,
    in order, each with the hash of its own bytes. *)
Fixpoint layout `{Hasher} (off : Z) (ranges : list ChunkFileInfo.t) (data : bytes) : Prop :=
  match ranges with
  | [] => data = []
  | r :: rest =>
      exists d tail,
        data = (d ++ tail)%list
        /\ ChunkFileInfo.Offset r = off
        /\ ChunkFileInfo.Size r = Z.of_nat (length d)
        /\ ChunkFileInfo.Hash r = CalculateDataHash d
        /\ layout (off + Z.of_nat (length d)) rest tail
  end.

(** The sizes recorded in a chunk, summed. *)
Definition recordedSize (ranges : list ChunkFileInfo.t) : Z :=
  foldr (fun r acc => ChunkFileInfo.Size r + acc) 0 ranges.

(** While the loop runs, the chunks closed so far and the chunk in
    progress carry consecutive IDs from [n0] on, and the counter is one
    past the chunk in progress. *)
Definition numbered (n0 : Z) (v : Chunker.vars) : Prop :=
  (forall (i : nat) ch, Chunker.chunks v !! i = Some ch ->
     ChunkData.ID ch = n0 + Z.of_nat i)
  /\ ChunkData.ID (Chunker.currentChunk v) = n0 + Z.of_nat (length (Chunker.chunks v))
  /\ Chunker.chunkID (Chunker.c v) = n0 + Z.of_nat (length (Chunker.chunks v)) + 1.

(** A chunk is within the size bound unless it holds a single file. *)
Definition bounded (ch : ChunkData.t) : Prop :=
  (length (ChunkData.Files ch) <= 1)%nat
  \/ Z.of_nat (length (ChunkData.Data ch)) <= ChunkSize.

(** The recorded ranges of a chunk tile its bytes. *)
Definition tiled `{Hasher} (ch : ChunkData.t) : Prop :=
  layout 0 (ChunkData.Files ch) (ChunkData.Data ch).

(** A chunk as [CreateChunks] closes it. *)
Definition closedChunk `{Hasher} (ch : ChunkData.t) : Prop :=
  tiled ch /\ bounded ch /\ ChunkData.Files ch <> []
  /\ ChunkData.Hash ch = CalculateDataHash (ChunkData.Data ch)
  /\ Z.of_nat (length (ChunkData.Data ch)) < 2 ^ 63.

(** The invariant of the loop of [CreateChunks] on the bytes it packs. *)
Definition packedWell `{Hasher} (v : Chunker.vars) : Prop :=
  Forall closedChunk (Chunker.chunks v)
  /\ tiled (Chunker.currentChunk v)
  /\ bounded (Chunker.currentChunk v)
  /\ Chunker.currentSize v = Z.of_nat (length (ChunkData.Data (Chunker.currentChunk v)))
  /\ Z.of_nat (length (ChunkData.Data (Chunker.currentChunk v))) < 2 ^ 63.

(** The paths a batch hands to the packer, and the chunks it gets back. *)
Definition filesToBackup (e : Engine.t) (changes : list FileChange.t) : list string :=
  (foldl (Engine.applyChange (Engine.watchPath e)) (Engine.metadata e, []) changes).2.

Definition packed `{Hasher} (env : Env) (e : Engine.t) (changes : list FileChange.t)
  : list ChunkData.t :=
  (Chunker.CreateChunks (tree env) (Engine.chunker e) (filesToBackup e changes)).1.

(** Where the file of a chunk goes. *)
Definition chunkPath (backup : string) (ch : ChunkData.t) : string :=
  Join backup (chunkFilename (ChunkData.ID ch)).

(** The chunk can be compressed and its file written. *)
Definition storable `{Codec} (env : Env) (backup : string) (ch : ChunkData.t) : Prop :=
  is_Some (Compressor.Compress (ChunkData.Data ch))
  /\ writeChunkOk env (chunkPath backup ch) = true.

(** Every chunk of the catalog is below the counter of the packer. *)
Definition belowCounter (e : Engine.t) : Prop :=
  Forall (fun ci => ChunkInfo.ID ci < Chunker.chunkID (Engine.chunker e))
         (Manager.Chunks (Engine.metadata e)).

(** [handleChanges] after its first loop, in one expression: the result of
    storing the chunks (when there is a file to back up), then the save. *)
Definition batchStore `{Hasher} `{Codec} (env : Env) (e : Engine.t) (d : Disk)
    (changes : list FileChange.t) : Engine.t * Disk * option error :=
  let m1 := (foldl (Engine.applyChange (Engine.watchPath e)) (Engine.metadata e, [])
                   changes).1 in
  let e1 := Engine.withMetadata e m1 in
  if (0 <? length (filesToBackup e changes))%nat
  then Engine.storeChunks env
         (Engine.withChunker e1
            (Chunker.CreateChunks (tree env) (Engine.chunker e) (filesToBackup e changes)).2)
         d (packed env e changes)
  else (e1, d, None).

Definition batchSave (env : Env) (r : Engine.t * Disk * option error)
  : Engine.t * Disk * option error :=
  match r.2 with
  | Some err => (r.1.1, r.1.2, Some (ErrCreateBackupChunks err))
  | None =>
      let s := Manager.SaveMetadata env r.1.2 (Engine.metadata r.1.1) in
      (Engine.withMetadata r.1.1 s.1.1, s.1.2, s.2)
  end.

(** What the walk of [DetectChanges] records for a tree-relative path:
    the regular, readable file at that place, if there is one. *)
Definition walked `{Hasher} (fs : gmap string Node) (watchPath relPath : string)
  : option FileInfo.t :=
  match fs !! Join watchPath relPath with
  | Some (File data mtime true) =>
      Some (FileInfo.mk relPath (len64 data) mtime (sha256Hex data) [] false)
  | _ => None
  end.

(** The fields of a record that [DetectChanges] reads. *)
Definition fingerprint (info : FileInfo.t) : string * Z * bool :=
  (FileInfo.Hash info, FileInfo.ModTime info, FileInfo.IsDeleted info).

(** The catalog has nothing to report about the files [current]: every
    walked file has a record that is tombstoned or carries its hash and
    time, and every live record was walked. *)
Definition settled (current stored : gmap string FileInfo.t) : Prop :=
  (forall path info, current !! path = Some info ->
     exists storedInfo,
       stored !! path = Some storedInfo
       /\ (FileInfo.IsDeleted storedInfo = true
           \/ (FileInfo.Hash storedInfo = FileInfo.Hash info
               /\ FileInfo.ModTime storedInfo = FileInfo.ModTime info)))
  /\ (forall path storedInfo, stored !! path = Some storedInfo ->
        FileInfo.IsDeleted storedInfo = false -> is_Some (current !! path)).

(** What one change does to the record of [path] in [handleChanges]. *)
Definition effect (change : FileChange.t) (record : option FileInfo.t)
  : option FileInfo.t :=
  let op := FileChange.Operation change in
  if String.eqb op "CREATE" || String.eqb op "MODIFY" then
    match FileChange.FileInfo change with
    | Some info => Some info
    | None => record
    end
  else if String.eqb op "DELETE" then Manager.markDeleted <$> record
  else record.


(** The node [restoreFile] writes for a record. *)
Definition restoredNode (renv : RestoreEnv) (e : Restore.t) (info : FileInfo.t)
    (fileData : bytes) : Node :=
  File fileData
       (if chtimesOk renv (Join (Restore.targetPath e) (FileInfo.Path info))
        then FileInfo.ModTime info else rnow renv)
       true.







(** Every chunk reference of every record names a chunk of the chunk
    list. *)
Definition refsResolve (m : Manager.t) : Prop :=
  forall path info id,
    Manager.Files m !! path = Some info ->
    id ∈ FileInfo.ChunkRefs info ->
    exists chunk, chunk ∈ Manager.Chunks m /\ ChunkInfo.ID chunk = id.


(** * Proofs *)

(** ** Machine integers and paths *)

Lemma wrap64_small (z : Z) : in_int64 z -> wrap64 z = z.
Proof.
  unfold in_int64, wrap64. intros Hz.
  rewrite Z.mod_small; lia.
Qed.

Lemma add64_small (a b : Z) : in_int64 (a + b) -> add64 a b = a + b.
Proof. apply wrap64_small. Qed.

Lemma len64_small {A} (s : list A) :
  Z.of_nat (length s) < 2 ^ 63 -> len64 s = Z.of_nat (length s).
Proof. intros Hs. apply wrap64_small. unfold in_int64. lia. Qed.

Lemma append_cons (a : ascii) (s t : string) : String a s +:+ t = String a (s +:+ t).
Proof. reflexivity. Qed.

Lemma stripPrefix_app (pre s : string) : stripPrefix pre (pre +:+ s) = Some s.
Proof.
  induction pre as [|a pre IH]; simpl; [reflexivity|].
  rewrite Ascii.eqb_refl. exact IH.
Qed.

Lemma stripPrefix_Some (pre s r : string) :
  stripPrefix pre s = Some r -> s = pre +:+ r.
Proof.
  revert s. induction pre as [|a pre IH]; simpl; intros s Hs.
  - injection Hs as ->. reflexivity.
  - destruct s as [|b s]; [discriminate|].
    destruct (Ascii.eqb a b) eqn:Hab; [|discriminate].
    apply Ascii.eqb_eq in Hab. subst b. rewrite append_cons. f_equal. now apply IH.
Qed.

Lemma append_assoc3 (a b c : string) : (a +:+ b) +:+ c = a +:+ (b +:+ c).
Proof.
  induction a as [|x a IH]; [reflexivity|].
  rewrite !append_cons. now rewrite IH.
Qed.

Lemma Rel_Join (base p : string) : Rel base (Join base p) = Some p.
Proof.
  unfold Rel, Join. rewrite <- append_assoc3. apply stripPrefix_app.
Qed.

Lemma Rel_Some (base full p : string) : Rel base full = Some p -> full = Join base p.
Proof.
  unfold Rel, Join. intros Hr. apply stripPrefix_Some in Hr.
  now rewrite append_assoc3 in Hr.
Qed.

Lemma Rel_Some_iff (base full p : string) : Rel base full = Some p <-> full = Join base p.
Proof. split; [apply Rel_Some|]. intros ->. apply Rel_Join. Qed.

Lemma append_inj_r (a b c : string) : a +:+ b = a +:+ c -> b = c.
Proof.
  induction a as [|x a IH]; intros Heq; [assumption|].
  rewrite !append_cons in Heq. injection Heq. auto.
Qed.

Lemma Join_inj (dir p q : string) : Join dir p = Join dir q -> p = q.
Proof. unfold Join. intros Heq. now do 2 apply append_inj_r in Heq. Qed.

(** ** The catalog manager *)

Lemma SaveMetadata_Files (env : Env) (d : Disk) (m : Manager.t) :
  Manager.Files (Manager.SaveMetadata env d m).1.1 = Manager.Files m.
Proof.
  unfold Manager.SaveMetadata.
  destruct (ensureDirOk env (Manager.backupPath m)); simpl; [|reflexivity].
  destruct (persistOk env (Manager.metadataPath m)); reflexivity.
Qed.

Lemma SaveMetadata_Chunks (env : Env) (d : Disk) (m : Manager.t) :
  Manager.Chunks (Manager.SaveMetadata env d m).1.1 = Manager.Chunks m.
Proof.
  unfold Manager.SaveMetadata.
  destruct (ensureDirOk env (Manager.backupPath m)); simpl; [|reflexivity].
  destruct (persistOk env (Manager.metadataPath m)); reflexivity.
Qed.

Lemma MarkFileDeleted_absent (m : Manager.t) (path : string) :
  Manager.Files m !! path = None -> Manager.MarkFileDeleted m path = m.
Proof. unfold Manager.MarkFileDeleted. now intros ->. Qed.

(** C10.  Tombstoning a path the catalog has no record of changes
    nothing: [MarkFileDeleted] returns the catalog it was given, and a
    batch made of one DELETE event for such a path leaves the file map as
    it was (the batch still saves, which only touches [UpdatedAt]). *)
Theorem MarkFileDeleted_untracked_is_noop `{Hasher} `{Codec}
    (m : Manager.t) (path : string) :
  Manager.Files m !! path = None ->
  Manager.MarkFileDeleted m path = m
  /\ forall (env : Env) (d : Disk) (e : Engine.t),
       Engine.metadata e = m ->
       Manager.Files
         (Engine.metadata
            (Engine.handleChanges env e d [FileChange.mk path "DELETE" None]).1.1)
       = Manager.Files m.
Proof.
  intros Habsent. split; [now apply MarkFileDeleted_absent|].
  intros env d e <-.
  unfold Engine.handleChanges. simpl.
  rewrite (MarkFileDeleted_absent _ _ Habsent). simpl.
  pose proof (SaveMetadata_Files env d (Engine.metadata e)) as Hsave.
  destruct (Manager.SaveMetadata env d (Engine.metadata e)) as [[m3 disk3] saved].
  simpl in *. exact Hsave.
Qed.

Lemma MarkFileDeleted_untracked_is_noop_witness :
  Manager.MarkFileDeleted (Manager.NewManager 0 "/b") "a.txt" = Manager.NewManager 0 "/b"
  /\ forall (env : Env) (d : Disk) (e : Engine.t),
       Engine.metadata e = Manager.NewManager 0 "/b" ->
       Manager.Files
         (Engine.metadata
            (@Engine.handleChanges listingHasher framingCodec env e d
               [FileChange.mk "a.txt" "DELETE" None]).1.1)
       = Manager.Files (Manager.NewManager 0 "/b").
Proof.
  apply (@MarkFileDeleted_untracked_is_noop listingHasher framingCodec).
  reflexivity.
Defined.

(** ** The chunker: numbering of the chunks *)

Section ChunkNumbering.
Context `{Hasher}.
Variable fs : gmap string Node.

Lemma numbered_init (c0 : Chunker.t) :
  in_int64 (Chunker.chunkID c0 + 1) ->
  numbered (Chunker.chunkID c0) (Chunker.init c0).
Proof.
  intros Hr. unfold numbered, Chunker.init. simpl.
  rewrite wrap64_small by assumption.
  repeat split; try lia. intros i ch Hi. discriminate.
Qed.

Lemma numbered_sealCurrent (n0 : Z) (v : Chunker.vars) :
  numbered n0 v ->
  in_int64 (n0 + Z.of_nat (length (Chunker.chunks v)) + 2) ->
  numbered n0 (Chunker.sealCurrent v).
Proof.
  intros (Hch & Hcur & Hc) Hr. unfold numbered, Chunker.sealCurrent. simpl.
  rewrite length_app. simpl. rewrite Hc.
  rewrite wrap64_small by (unfold in_int64 in *; lia).
  repeat split; try lia.
  intros i ch Hi. apply lookup_app_Some in Hi as [Hi | [Hlen Hi]].
  - now apply Hch.
  - apply list_lookup_singleton_Some in Hi as [Hi <-]. simpl. lia.
Qed.

Lemma numbered_addFile (n0 : Z) (v : Chunker.vars) path size data hash :
  numbered n0 v -> numbered n0 (Chunker.addFile v path size data hash).
Proof. intros Hn. exact Hn. Qed.

Lemma step_chunks_length (v : Chunker.vars) (path : string) :
  (length (Chunker.chunks v) <= length (Chunker.chunks (Chunker.step fs v path))
   <= length (Chunker.chunks v) + 1)%nat.
Proof.
  unfold Chunker.step.
  destruct (Stat fs path) as [info|]; [|lia].
  destruct (IsDir info); [lia|].
  assert (Hv1 : (length (Chunker.chunks v)
                 <= length (Chunker.chunks
                      (if Chunker.mustSeal v (Size info) then Chunker.sealCurrent v else v))
                 <= length (Chunker.chunks v) + 1)%nat).
  { destruct (Chunker.mustSeal v (Size info)); simpl; [rewrite length_app; simpl|]; lia. }
  destruct (ReadFile fs path); [|exact Hv1].
  destruct (CalculateFileHash fs path); exact Hv1.
Qed.

Lemma numbered_step (n0 : Z) (v : Chunker.vars) (path : string) :
  numbered n0 v ->
  in_int64 (n0 + Z.of_nat (length (Chunker.chunks v)) + 2) ->
  numbered n0 (Chunker.step fs v path).
Proof.
  intros Hn Hr. unfold Chunker.step.
  destruct (Stat fs path) as [info|]; [|exact Hn].
  destruct (IsDir info); [exact Hn|].
  assert (Hv1 : numbered n0
            (if Chunker.mustSeal v (Size info) then Chunker.sealCurrent v else v)).
  { destruct (Chunker.mustSeal v (Size info)); [now apply numbered_sealCurrent|exact Hn]. }
  destruct (ReadFile fs path); [|exact Hv1].
  destruct (CalculateFileHash fs path); exact Hv1.
Qed.

Lemma numbered_foldl (n0 : Z) (files : list string) (v : Chunker.vars) :
  numbered n0 v ->
  - 2 ^ 63 <= n0 ->
  n0 + Z.of_nat (length (Chunker.chunks v)) + Z.of_nat (length files) + 1 < 2 ^ 63 ->
  numbered n0 (foldl (Chunker.step fs) v files)
  /\ (length (Chunker.chunks (foldl (Chunker.step fs) v files))
      <= length (Chunker.chunks v) + length files)%nat.
Proof.
  revert v. induction files as [|path files IH]; intros v Hn Hlo Hhi; simpl.
  - split; [exact Hn|lia].
  - pose proof (step_chunks_length v path) as Hlen.
    simpl in Hhi.
    destruct (IH (Chunker.step fs v path)) as [Hn' Hlen'].
    + apply numbered_step; [exact Hn|]. unfold in_int64. lia.
    + exact Hlo.
    + lia.
    + split; [exact Hn'|]. lia.
Qed.

(** The chunks [CreateChunks] returns are numbered consecutively from the
    counter it was called with, and the counter it leaves is past all of
    them. *)
Lemma CreateChunks_numbered (c0 : Chunker.t) (files : list string) :
  - 2 ^ 63 <= Chunker.chunkID c0 ->
  Chunker.chunkID c0 + Z.of_nat (length files) + 1 < 2 ^ 63 ->
  let out := Chunker.CreateChunks fs c0 files in
  (forall (i : nat) ch, out.1 !! i = Some ch ->
     ChunkData.ID ch = Chunker.chunkID c0 + Z.of_nat i)
  /\ Chunker.chunkID c0 + Z.of_nat (length out.1) <= Chunker.chunkID out.2
  /\ Chunker.chunkID c0 < Chunker.chunkID out.2
  /\ Chunker.chunkID out.2 <= Chunker.chunkID c0 + Z.of_nat (length files) + 1.
Proof.
  intros Hlo Hhi out.
  destruct (numbered_foldl (Chunker.chunkID c0) files (Chunker.init c0))
    as [(Hch & Hcur & Hc) Hlen].
  - apply numbered_init. unfold in_int64. lia.
  - exact Hlo.
  - simpl. lia.
  - subst out. unfold Chunker.CreateChunks. simpl in *.
    set (v := foldl (Chunker.step fs) (Chunker.init c0) files) in *.
    unfold Chunker.finish.
    destruct (0 <? length (ChunkData.Files (Chunker.currentChunk v)))%nat.
    + repeat split; try (rewrite ?length_app; simpl; lia).
      intros i ch Hi. apply lookup_app_Some in Hi as [Hi | [Hge Hi]].
      * now apply Hch.
      * apply list_lookup_singleton_Some in Hi as [Hi <-]. simpl. lia.
    + repeat split; try lia. exact Hch.
Qed.

End ChunkNumbering.

(** ** The chunker: the bytes of the chunks *)

Section ChunkLayout.
Context `{Hasher}.

Lemma layout_snoc (off : Z) (ranges : list ChunkFileInfo.t) (data d : bytes)
    (r : ChunkFileInfo.t) :
  layout off ranges data ->
  ChunkFileInfo.Offset r = off + Z.of_nat (length data) ->
  ChunkFileInfo.Size r = Z.of_nat (length d) ->
  ChunkFileInfo.Hash r = CalculateDataHash d ->
  layout off (ranges ++ [r]) (data ++ d).
Proof.
  revert off data. induction ranges as [|r0 ranges IH]; intros off data Hl Ho Hs Hh.
  - simpl in Hl. subst data. simpl in *.
    exists d, []. rewrite app_nil_r. repeat split; auto. lia.
  - destruct Hl as (d0 & tail & -> & Ho0 & Hs0 & Hh0 & Hl).
    simpl. exists d0, (tail ++ d)%list.
    rewrite <- app_assoc. repeat split; auto.
    apply IH; auto. rewrite length_app in Ho. lia.
Qed.

Lemma layout_length (off : Z) (ranges : list ChunkFileInfo.t) (data : bytes) :
  layout off ranges data -> recordedSize ranges = Z.of_nat (length data).
Proof.
  revert off data. induction ranges as [|r ranges IH]; intros off data Hl.
  - simpl in Hl. now subst.
  - destruct Hl as (d & tail & -> & _ & Hs & _ & Hl).
    simpl. rewrite (IH _ _ Hl), Hs, length_app. lia.
Qed.

(** Every recorded range is a segment of the data with the recorded hash. *)
Lemma layout_elem (off : Z) (ranges : list ChunkFileInfo.t) (data : bytes)
    (r : ChunkFileInfo.t) :
  layout off ranges data -> r ∈ ranges ->
  exists pre d post,
    data = (pre ++ d ++ post)%list
    /\ ChunkFileInfo.Offset r = off + Z.of_nat (length pre)
    /\ ChunkFileInfo.Size r = Z.of_nat (length d)
    /\ ChunkFileInfo.Hash r = CalculateDataHash d.
Proof.
  revert off data. induction ranges as [|r0 ranges IH]; intros off data Hl Hin.
  - now apply elem_of_nil in Hin.
  - destruct Hl as (d0 & tail & -> & Ho0 & Hs0 & Hh0 & Hl).
    apply elem_of_cons in Hin as [-> | Hin].
    + exists [], d0, tail. simpl. repeat split; auto. lia.
    + destruct (IH _ _ Hl Hin) as (pre & d & post & -> & Ho & Hs & Hh).
      exists (d0 ++ pre)%list, d, post.
      rewrite <- app_assoc, length_app. repeat split; auto. lia.
Qed.

(** Every byte of the data lies in some recorded range. *)
Lemma layout_cover (off : Z) (ranges : list ChunkFileInfo.t) (data : bytes) (i : nat) :
  layout off ranges data -> (i < length data)%nat ->
  exists r pre d post,
    r ∈ ranges
    /\ data = (pre ++ d ++ post)%list
    /\ ChunkFileInfo.Offset r = off + Z.of_nat (length pre)
    /\ ChunkFileInfo.Size r = Z.of_nat (length d)
    /\ ChunkFileInfo.Hash r = CalculateDataHash d
    /\ (length pre <= i < length pre + length d)%nat.
Proof.
  revert off data i. induction ranges as [|r0 ranges IH]; intros off data i Hl Hi.
  - simpl in Hl. subst data. simpl in Hi. lia.
  - destruct Hl as (d0 & tail & -> & Ho0 & Hs0 & Hh0 & Hl).
    destruct (decide (i < length d0)%nat) as [Hlt | Hge].
    + exists r0, [], d0, tail. simpl. repeat split; auto; try lia. apply list_elem_of_here.
    + rewrite length_app in Hi.
      destruct (IH _ tail (i - length d0)%nat Hl) as
        (r & pre & d & post & Hin & -> & Ho & Hs & Hh & Hr); [lia|].
      exists r, (d0 ++ pre)%list, d, post.
      rewrite <- app_assoc, length_app.
      repeat split; auto; try lia. now apply list_elem_of_further.
Qed.

Variable fs : gmap string Node.

(** The iteration of the loop on a regular file that can be read. *)
Lemma step_readable (v : Chunker.vars) (path : string) (data : bytes) (mtime : Z) :
  fs !! path = Some (File data mtime true) ->
  Z.of_nat (length data) < 2 ^ 63 ->
  Chunker.step fs v path =
    Chunker.addFile
      (if Chunker.mustSeal v (Z.of_nat (length data)) then Chunker.sealCurrent v else v)
      path (Z.of_nat (length data)) data (CalculateDataHash data).
Proof.
  intros Hf Hlen. unfold Chunker.step, Stat, CalculateFileHash, ReadFile.
  rewrite Hf. simpl. now rewrite len64_small.
Qed.

(** A regular file that [os.Stat] sees and [os.ReadFile] refuses goes
    through the same test before it is skipped. *)
Lemma step_unreadable (v : Chunker.vars) (path : string) (data : bytes) (mtime : Z) :
  fs !! path = Some (File data mtime false) ->
  Chunker.step fs v path =
    if Chunker.mustSeal v (len64 data) then Chunker.sealCurrent v else v.
Proof.
  intros Hf. unfold Chunker.step, Stat, ReadFile. rewrite Hf. reflexivity.
Qed.

Lemma mustSeal_true (v : Chunker.vars) (size : Z) :
  0 <= Chunker.currentSize v -> 0 <= size -> Chunker.currentSize v + size < 2 ^ 63 ->
  Chunker.mustSeal v size = true <->
  ChunkSize < Chunker.currentSize v + size
  /\ ChunkData.Files (Chunker.currentChunk v) <> [].
Proof.
  intros Hcs Hs Hsum. unfold Chunker.mustSeal.
  rewrite add64_small by (unfold in_int64; lia).
  rewrite andb_true_iff, Z.ltb_lt, Nat.ltb_lt.
  destruct (ChunkData.Files (Chunker.currentChunk v)); simpl; split;
    intros [Ha Hb]; split; auto; try lia; congruence.
Qed.

Lemma packedWell_sealCurrent (v : Chunker.vars) :
  packedWell v -> ChunkData.Files (Chunker.currentChunk v) <> [] ->
  packedWell (Chunker.sealCurrent v).
Proof.
  intros (Hch & Ht & Hb & Hcs & Hlt) Hne. unfold packedWell, Chunker.sealCurrent. simpl.
  repeat split.
  - apply Forall_app. split; [exact Hch|].
    apply Forall_singleton. repeat split; auto.
  - left. simpl. lia.
Qed.

Lemma packedWell_step (v : Chunker.vars) (path : string) :
  packedWell v ->
  Z.of_nat (length (ChunkData.Data (Chunker.currentChunk v))) + fileLen fs path < 2 ^ 63 ->
  packedWell (Chunker.step fs v path)
  /\ Z.of_nat (length (ChunkData.Data (Chunker.currentChunk (Chunker.step fs v path))))
     <= Z.of_nat (length (ChunkData.Data (Chunker.currentChunk v))) + fileLen fs path.
Proof.
  intros Hv Hfit. unfold fileLen in *.
  pose proof Hv as (Hch & Ht & Hb & Hcs & Hlt).
  unfold Chunker.step, Stat, CalculateFileHash, ReadFile.
  destruct (fs !! path) as [[|data mtime readable]|] eqn:Hf; simpl;
    try (split; [exact Hv|lia]).
  rewrite len64_small by lia.
  set (size := Z.of_nat (length data)) in *.
  set (v1 := if Chunker.mustSeal v size then Chunker.sealCurrent v else v).
  assert (Hseal : Chunker.mustSeal v size = true <->
                  ChunkSize < Chunker.currentSize v + size
                  /\ ChunkData.Files (Chunker.currentChunk v) <> []).
  { apply mustSeal_true; subst size; lia. }
  assert (Hv1 : packedWell v1
                /\ Z.of_nat (length (ChunkData.Data (Chunker.currentChunk v1)))
                   <= Z.of_nat (length (ChunkData.Data (Chunker.currentChunk v)))
                /\ (length (ChunkData.Files (Chunker.currentChunk v1)) = 0%nat
                    \/ Z.of_nat (length (ChunkData.Data (Chunker.currentChunk v1))) + size
                       <= ChunkSize)).
  { subst v1. destruct (Chunker.mustSeal v size) eqn:Hm.
    - destruct (proj1 Hseal eq_refl) as [_ Hne].
      split; [now apply packedWell_sealCurrent|].
      simpl. split; [lia|now left].
    - split; [exact Hv|]. split; [lia|].
      destruct (ChunkData.Files (Chunker.currentChunk v)) eqn:Hfiles; [now left|].
      right. destruct (decide (ChunkSize < Chunker.currentSize v + size)) as [Hbig|]; [|lia].
      assert (false = true) by (apply Hseal; split; [exact Hbig|congruence]).
      discriminate. }
  destruct Hv1 as ((Hch1 & Ht1 & Hb1 & Hcs1 & Hlt1) & Hle & Hroom).
  destruct readable; [|split; [repeat split; assumption|subst size; lia]].
  split.
  - unfold packedWell, Chunker.addFile. simpl. repeat split.
    + exact Hch1.
    + unfold tiled. simpl. apply layout_snoc; auto.
      simpl. rewrite len64_small by (subst size; lia). lia.
    + unfold bounded. simpl. rewrite !length_app. simpl.
      destruct Hroom as [Hz | Hr]; [left; lia|right; subst size; lia].
    + rewrite length_app, Hcs1, add64_small; [subst size; lia|].
      unfold in_int64. subst size. lia.
    + rewrite length_app. subst size. lia.
  - unfold Chunker.addFile. simpl. rewrite length_app. subst size. lia.
Qed.

Lemma packedWell_foldl (files : list string) (v : Chunker.vars) :
  packedWell v ->
  Z.of_nat (length (ChunkData.Data (Chunker.currentChunk v))) + totalLen fs files < 2 ^ 63 ->
  packedWell (foldl (Chunker.step fs) v files).
Proof.
  revert v. induction files as [|path files IH]; intros v Hv Hfit; simpl; [exact Hv|].
  simpl in Hfit.
  assert (Hnn : 0 <= totalLen fs files).
  { clear. induction files as [|p files IH]; simpl; [lia|].
    unfold fileLen. destruct (fs !! p) as [[|? ? ?]|]; lia. }
  destruct (packedWell_step v path Hv) as [Hv' Hle]; [lia|].
  apply IH; [exact Hv'|lia].
Qed.

(** Every chunk [CreateChunks] returns is closed: its ranges tile its
    bytes, it holds at least one file, and it is within the bound unless it
    holds exactly one file. *)
Lemma CreateChunks_closed (c0 : Chunker.t) (files : list string) :
  totalLen fs files < 2 ^ 63 ->
  Forall closedChunk (Chunker.CreateChunks fs c0 files).1.
Proof.
  intros Hfit. unfold Chunker.CreateChunks. simpl.
  destruct (packedWell_foldl files (Chunker.init c0)) as (Hch & Ht & Hb & Hcs & Hlt).
  - unfold packedWell, Chunker.init, tiled, bounded. simpl.
    repeat split; auto.
  - simpl. lia.
  - unfold Chunker.finish.
    destruct (0 <? length _)%nat eqn:Hne; [|exact Hch].
    apply Nat.ltb_lt in Hne.
    apply Forall_app. split; [exact Hch|].
    apply Forall_singleton. repeat split; auto.
    simpl. intros Hnil. rewrite Hnil in Hne. simpl in Hne. lia.
Qed.

End ChunkLayout.

(** ** The chunker: when a chunk is closed *)

Section Sealing.
Context `{Hasher}.

(** A file larger than the bound shares its chunk with no other file. *)
Lemma oversized_file_alone (fs : gmap string Node) (c0 : Chunker.t) (files : list string)
    (ch : ChunkData.t) (r : ChunkFileInfo.t) :
  totalLen fs files < 2 ^ 63 ->
  ch ∈ (Chunker.CreateChunks fs c0 files).1 ->
  r ∈ ChunkData.Files ch ->
  ChunkSize < ChunkFileInfo.Size r ->
  ChunkData.Files ch = [r].
Proof.
  intros Hfit Hch Hr Hbig.
  pose proof (CreateChunks_closed fs c0 files Hfit) as Hall.
  rewrite Forall_forall in Hall.
  destruct (Hall ch Hch) as (Ht & Hb & _ & _ & _).
  destruct Hb as [Hone | Hsmall].
  - destruct (ChunkData.Files ch) as [|r0 [|r1 rest]]; simpl in Hone; try lia.
    + now apply elem_of_nil in Hr.
    + apply list_elem_of_singleton in Hr. now subst.
  - destruct (layout_elem 0 _ _ r Ht Hr) as (pre & d & post & Hdata & _ & Hs & _).
    rewrite Hdata, !length_app in Hsmall. lia.
Qed.

(** Two readable files that do not fit together end up in two chunks. *)
Lemma two_files_two_chunks (fs : gmap string Node) (c0 : Chunker.t) (a b : string)
    (dataA dataB : bytes) (mtimeA mtimeB : Z) :
  fs !! a = Some (File dataA mtimeA true) ->
  fs !! b = Some (File dataB mtimeB true) ->
  ChunkSize < Z.of_nat (length dataA) + Z.of_nat (length dataB) ->
  Z.of_nat (length dataA) + Z.of_nat (length dataB) < 2 ^ 63 ->
  (Chunker.CreateChunks fs c0 [a; b]).1 =
    [ ChunkData.mk (Chunker.chunkID c0) dataA
        [ChunkFileInfo.mk a 0 (Z.of_nat (length dataA)) (CalculateDataHash dataA)]
        (CalculateDataHash dataA);
      ChunkData.mk (wrap64 (Chunker.chunkID c0 + 1)) dataB
        [ChunkFileInfo.mk b 0 (Z.of_nat (length dataB)) (CalculateDataHash dataB)]
        (CalculateDataHash dataB) ].
Proof.
  intros Ha Hb Hover Hfit.
  unfold Chunker.CreateChunks. simpl fst. cbn [foldl].
  rewrite (step_readable fs _ a dataA mtimeA Ha) by lia.
  assert (Hm1 : Chunker.mustSeal (Chunker.init c0) (Z.of_nat (length dataA)) = false).
  { unfold Chunker.mustSeal, Chunker.init. simpl. apply andb_false_r. }
  rewrite Hm1.
  set (v1 := Chunker.addFile (Chunker.init c0) a (Z.of_nat (length dataA)) dataA
               (CalculateDataHash dataA)).
  rewrite (step_readable fs v1 b dataB mtimeB Hb) by lia.
  assert (Hcs1 : Chunker.currentSize v1 = Z.of_nat (length dataA)).
  { subst v1. unfold Chunker.addFile, Chunker.init. simpl.
    apply add64_small. unfold in_int64. lia. }
  assert (Hm2 : Chunker.mustSeal v1 (Z.of_nat (length dataB)) = true).
  { apply mustSeal_true; rewrite ?Hcs1; try lia. split; [lia|]. subst v1. discriminate. }
  rewrite Hm2. subst v1.
  unfold Chunker.finish, Chunker.addFile, Chunker.sealCurrent, Chunker.init, Chunker.sealed.
  simpl. reflexivity.
Qed.

(** C5.  The sealing rule of the packer.  (1) At a regular file that can
    be read, the chunk in progress is closed exactly when adding the file
    would exceed [ChunkSize] and the chunk already holds a file; the file
    then opens the new chunk, and otherwise it is appended to the chunk in
    progress.  (2) A file larger than the bound is alone in its chunk.
    (3) A 2 MiB file followed by a 4 MiB file gives exactly two chunks,
    the first holding only the first file. *)
Theorem packer_seals_before_exceeding_bound :
  (forall (fs : gmap string Node) (v : Chunker.vars) (path : string)
          (data : bytes) (mtime : Z),
     fs !! path = Some (File data mtime true) ->
     0 <= Chunker.currentSize v ->
     Chunker.currentSize v + Z.of_nat (length data) < 2 ^ 63 ->
     let size := Z.of_nat (length data) in
     let cur := Chunker.currentChunk v in
     let v' := Chunker.step fs v path in
     let exceeds := ChunkSize < Chunker.currentSize v + size /\ ChunkData.Files cur <> [] in
     (exceeds ->
        Chunker.chunks v' = (Chunker.chunks v ++ [Chunker.sealed cur])%list
        /\ ChunkData.ID (Chunker.currentChunk v') = Chunker.chunkID (Chunker.c v)
        /\ ChunkData.Data (Chunker.currentChunk v') = data
        /\ ChunkData.Files (Chunker.currentChunk v') =
             [ChunkFileInfo.mk path 0 size (CalculateDataHash data)])
     /\ (~ exceeds ->
        Chunker.chunks v' = Chunker.chunks v
        /\ ChunkData.ID (Chunker.currentChunk v') = ChunkData.ID cur
        /\ ChunkData.Data (Chunker.currentChunk v') = (ChunkData.Data cur ++ data)%list
        /\ ChunkData.Files (Chunker.currentChunk v') =
             (ChunkData.Files cur
              ++ [ChunkFileInfo.mk path (len64 (ChunkData.Data cur)) size
                    (CalculateDataHash data)])%list))
  /\ (forall (fs : gmap string Node) (c0 : Chunker.t) (files : list string)
             (ch : ChunkData.t) (r : ChunkFileInfo.t),
        totalLen fs files < 2 ^ 63 ->
        ch ∈ (Chunker.CreateChunks fs c0 files).1 ->
        r ∈ ChunkData.Files ch ->
        ChunkSize < ChunkFileInfo.Size r ->
        ChunkData.Files ch = [r])
  /\ (forall (fs : gmap string Node) (c0 : Chunker.t) (a b : string)
             (dataA dataB : bytes) (mtimeA mtimeB : Z),
        fs !! a = Some (File dataA mtimeA true) ->
        fs !! b = Some (File dataB mtimeB true) ->
        Z.of_nat (length dataA) = 2 * 1024 * 1024 ->
        Z.of_nat (length dataB) = 4 * 1024 * 1024 ->
        (Chunker.CreateChunks fs c0 [a; b]).1 =
          [ ChunkData.mk (Chunker.chunkID c0) dataA
              [ChunkFileInfo.mk a 0 (2 * 1024 * 1024) (CalculateDataHash dataA)]
              (CalculateDataHash dataA);
            ChunkData.mk (wrap64 (Chunker.chunkID c0 + 1)) dataB
              [ChunkFileInfo.mk b 0 (4 * 1024 * 1024) (CalculateDataHash dataB)]
              (CalculateDataHash dataB) ]).
Proof.
  split; [|split].
  - intros fs v path data mtime Hf Hcs Hfit size cur v' exceeds.
    assert (Hstep : v' = Chunker.addFile
              (if Chunker.mustSeal v size then Chunker.sealCurrent v else v)
              path size data (CalculateDataHash data)).
    { subst v' size. apply (step_readable fs v path data mtime Hf). lia. }
    pose proof (mustSeal_true v size Hcs ltac:(subst size; lia) Hfit) as Hseal.
    split; intros Hex.
    + rewrite Hstep, (proj2 Hseal Hex). simpl. repeat split.
    + destruct (Chunker.mustSeal v size) eqn:Hm.
      * exfalso. apply Hex. now apply Hseal.
      * rewrite Hstep. simpl. repeat split.
  - apply oversized_file_alone.
  - intros fs c0 a b dataA dataB mtimeA mtimeB Ha Hb HlenA HlenB.
    rewrite <- HlenA, <- HlenB.
    apply (two_files_two_chunks fs c0 a b dataA dataB mtimeA mtimeB Ha Hb).
    + rewrite HlenA, HlenB. unfold ChunkSize. lia.
    + rewrite HlenA, HlenB. lia.
Qed.

End Sealing.

Lemma twoMiB_length : Z.of_nat (length twoMiB) = 2 * 1024 * 1024.
Proof. unfold twoMiB. rewrite length_replicate, Z2Nat.id; [reflexivity|lia]. Qed.

Lemma fourMiB_length : Z.of_nat (length fourMiB) = 4 * 1024 * 1024.
Proof. unfold fourMiB. rewrite length_replicate, Z2Nat.id; [reflexivity|lia]. Qed.

Lemma sixMiB_length : Z.of_nat (length sixMiB) = 6 * 1024 * 1024.
Proof. unfold sixMiB. rewrite length_replicate, Z2Nat.id; [reflexivity|lia]. Qed.

Lemma largeTree_a : largeTree !! "/w/a.txt" = Some (File twoMiB 0 true).
Proof. unfold largeTree. rewrite lookup_insert_eq. reflexivity. Qed.

Lemma largeTree_b : largeTree !! "/w/b.txt" = Some (File fourMiB 0 true).
Proof.
  unfold largeTree.
  rewrite lookup_insert_ne by discriminate. rewrite lookup_insert_eq. reflexivity.
Qed.

Lemma largeTree_c : largeTree !! "/w/c.bin" = Some (File sixMiB 0 true).
Proof.
  unfold largeTree.
  do 2 rewrite lookup_insert_ne by discriminate. rewrite lookup_insert_eq. reflexivity.
Qed.

Lemma packer_seals_before_exceeding_bound_witness :
  (* the first file joins the empty chunk in progress *)
  Chunker.chunks
    (Chunker.step (H:=listingHasher) largeTree (Chunker.init Chunker.NewChunker) "/w/a.txt")
  = []
  (* the 6 MiB file is alone in its chunk *)
  /\ ChunkData.Files
       (ChunkData.mk 2 sixMiB
          [ChunkFileInfo.mk "/w/c.bin" 0 (Z.of_nat (length sixMiB))
             (CalculateDataHash (H:=listingHasher) sixMiB)]
          (CalculateDataHash (H:=listingHasher) sixMiB))
     = [ChunkFileInfo.mk "/w/c.bin" 0 (Z.of_nat (length sixMiB))
          (CalculateDataHash (H:=listingHasher) sixMiB)]
  (* 2 MiB then 4 MiB: two chunks *)
  /\ (Chunker.CreateChunks (H:=listingHasher) largeTree Chunker.NewChunker
        ["/w/a.txt"; "/w/b.txt"]).1 =
       [ ChunkData.mk 1 twoMiB
           [ChunkFileInfo.mk "/w/a.txt" 0 (2 * 1024 * 1024)
              (CalculateDataHash (H:=listingHasher) twoMiB)]
           (CalculateDataHash (H:=listingHasher) twoMiB);
         ChunkData.mk (wrap64 (1 + 1)) fourMiB
           [ChunkFileInfo.mk "/w/b.txt" 0 (4 * 1024 * 1024)
              (CalculateDataHash (H:=listingHasher) fourMiB)]
           (CalculateDataHash (H:=listingHasher) fourMiB) ].
Proof.
  pose proof twoMiB_length as HA. pose proof fourMiB_length as HB.
  pose proof sixMiB_length as HC.
  pose proof largeTree_a as Ha. pose proof largeTree_b as Hb.
  pose proof largeTree_c as Hc.
  destruct (@packer_seals_before_exceeding_bound listingHasher) as (P1 & P2 & P3).
  pose proof (@two_files_two_chunks listingHasher largeTree Chunker.NewChunker
                "/w/a.txt" "/w/c.bin" twoMiB sixMiB 0 0 Ha Hc) as Hpack.
  split; [|split].
  - apply (P1 largeTree (Chunker.init Chunker.NewChunker) "/w/a.txt" twoMiB 0 Ha).
    + cbn [Chunker.currentSize Chunker.init]. lia.
    + cbn [Chunker.currentSize Chunker.init]. rewrite HA. lia.
    + cbn [Chunker.currentChunk Chunker.init ChunkData.Files ChunkData.new].
      intros [_ Hne]. now apply Hne.
  - apply (P2 largeTree Chunker.NewChunker ["/w/a.txt"; "/w/c.bin"]).
    + unfold totalLen, fileLen. cbn [foldr]. rewrite Ha, Hc, HA, HC. lia.
    + rewrite Hpack.
      * apply list_elem_of_further, list_elem_of_here.
      * rewrite HA, HC. unfold ChunkSize. lia.
      * rewrite HA, HC. lia.
    + cbn [ChunkData.Files]. apply list_elem_of_here.
    + cbn [ChunkFileInfo.Size]. rewrite HC. unfold ChunkSize. lia.
  - exact (P3 largeTree Chunker.NewChunker "/w/a.txt" "/w/b.txt" twoMiB fourMiB 0 0
              Ha Hb HA HB).
Defined.

(** ** Extraction of a file from a chunk *)

Section Extraction.
Context `{Hasher}.

Lemma slice_segment (pre d post : bytes) :
  slice (pre ++ d ++ post) (Z.of_nat (length pre))
        (Z.of_nat (length pre) + Z.of_nat (length d)) = Some d.
Proof.
  unfold slice.
  assert (Hc : (0 <=? Z.of_nat (length pre))
               && (Z.of_nat (length pre) <=? Z.of_nat (length pre) + Z.of_nat (length d))
               && (Z.of_nat (length pre) + Z.of_nat (length d)
                   <=? Z.of_nat (length (pre ++ d ++ post))) = true).
  { rewrite !andb_true_iff, !Z.leb_le, !length_app. lia. }
  rewrite Hc. f_equal.
  replace (Z.to_nat (Z.of_nat (length pre) + Z.of_nat (length d) - Z.of_nat (length pre)))
    with (length d) by lia.
  rewrite Nat2Z.id, drop_app_length. apply take_app_length.
Qed.

(** On a segment of the chunk whose offset and size are recorded in [r],
    extraction only depends on the comparison of the hashes. *)
Lemma Extract_segment (pre d post : bytes) (r : ChunkFileInfo.t) :
  Z.of_nat (length (pre ++ d ++ post)) < 2 ^ 63 ->
  ChunkFileInfo.Offset r = Z.of_nat (length pre) ->
  ChunkFileInfo.Size r = Z.of_nat (length d) ->
  Chunker.ExtractFileFromChunk (pre ++ d ++ post) r =
    if String.eqb (CalculateDataHash d) (ChunkFileInfo.Hash r)
    then Some (Ok d) else Some (Err ErrFileHashMismatch).
Proof.
  intros Hlen Ho Hs. unfold Chunker.ExtractFileFromChunk.
  rewrite Ho, Hs, len64_small by exact Hlen.
  rewrite !length_app in Hlen.
  rewrite add64_small by (unfold in_int64; lia).
  assert (Hb : (Z.of_nat (length (pre ++ d ++ post))
                <? Z.of_nat (length pre) + Z.of_nat (length d)) = false).
  { apply Z.ltb_ge. rewrite !length_app. lia. }
  rewrite Hb, slice_segment. reflexivity.
Qed.

Lemma Extract_beyond (chunkData : bytes) (r : ChunkFileInfo.t) :
  len64 chunkData < add64 (ChunkFileInfo.Offset r) (ChunkFileInfo.Size r) ->
  Chunker.ExtractFileFromChunk chunkData r = Some (Err ErrBeyondChunkBoundary).
Proof.
  intros Hb. unfold Chunker.ExtractFileFromChunk.
  apply Z.ltb_lt in Hb. now rewrite Hb.
Qed.

Lemma Extract_mismatch (chunkData data : bytes) (r : ChunkFileInfo.t) :
  add64 (ChunkFileInfo.Offset r) (ChunkFileInfo.Size r) <= len64 chunkData ->
  slice chunkData (ChunkFileInfo.Offset r)
        (add64 (ChunkFileInfo.Offset r) (ChunkFileInfo.Size r)) = Some data ->
  CalculateDataHash data <> ChunkFileInfo.Hash r ->
  Chunker.ExtractFileFromChunk chunkData r = Some (Err ErrFileHashMismatch).
Proof.
  intros Hb Hs Hh. unfold Chunker.ExtractFileFromChunk.
  apply Z.ltb_ge in Hb. rewrite Hb, Hs.
  apply String.eqb_neq in Hh. now rewrite Hh.
Qed.

Variable fs : gmap string Node.

Lemma Extract_recorded (c0 : Chunker.t) (files : list string)
    (ch : ChunkData.t) (r : ChunkFileInfo.t) :
  totalLen fs files < 2 ^ 63 ->
  ch ∈ (Chunker.CreateChunks fs c0 files).1 ->
  r ∈ ChunkData.Files ch ->
  exists data,
    Chunker.ExtractFileFromChunk (ChunkData.Data ch) r = Some (Ok data)
    /\ CalculateDataHash data = ChunkFileInfo.Hash r.
Proof.
  intros Hfit Hch Hr.
  pose proof (CreateChunks_closed fs c0 files Hfit) as Hall.
  rewrite Forall_forall in Hall.
  destruct (Hall ch Hch) as (Ht & _ & _ & _ & Hlen).
  destruct (layout_elem 0 _ _ r Ht Hr) as (pre & d & post & Hdata & Ho & Hs & Hh).
  exists d. split; [|now rewrite Hh].
  rewrite Hdata in Hlen |- *.
  rewrite (Extract_segment pre d post r Hlen) by (rewrite ?Ho, ?Hs; lia).
  now rewrite Hh, String.eqb_refl.
Qed.

Lemma Extract_mutated (c0 : Chunker.t) (files : list string)
    (ch : ChunkData.t) (i : nat) (b : byte) :
  (forall x y : bytes, sha256Hex x = sha256Hex y -> x = y) ->
  totalLen fs files < 2 ^ 63 ->
  ch ∈ (Chunker.CreateChunks fs c0 files).1 ->
  (i < length (ChunkData.Data ch))%nat ->
  ChunkData.Data ch !! i <> Some b ->
  exists r,
    r ∈ ChunkData.Files ch
    /\ Chunker.ExtractFileFromChunk (<[i := b]> (ChunkData.Data ch)) r
       = Some (Err ErrFileHashMismatch).
Proof.
  intros Hinj Hfit Hch Hi Hb.
  pose proof (CreateChunks_closed fs c0 files Hfit) as Hall.
  rewrite Forall_forall in Hall.
  destruct (Hall ch Hch) as (Ht & _ & _ & _ & Hlen).
  destruct (layout_cover 0 _ _ i Ht Hi)
    as (r & pre & d & post & Hr & Hdata & Ho & Hs & Hh & Hrange).
  exists r. split; [exact Hr|].
  rewrite Hdata in Hlen, Hb |- *.
  rewrite insert_app_r_alt by lia.
  rewrite insert_app_l by lia.
  rewrite lookup_app_r, lookup_app_l in Hb by lia.
  set (j := (i - length pre)%nat) in *.
  assert (Hlen' : Z.of_nat (length (pre ++ <[j := b]> d ++ post)) < 2 ^ 63).
  { rewrite !length_app, length_insert. rewrite !length_app in Hlen. exact Hlen. }
  rewrite (Extract_segment pre (<[j := b]> d) post r Hlen')
    by (rewrite ?length_insert, ?Ho, ?Hs; lia).
  assert (Hne : CalculateDataHash (<[j := b]> d) <> ChunkFileInfo.Hash r).
  { rewrite Hh. unfold CalculateDataHash. intros Heq. apply Hinj in Heq.
    apply Hb. rewrite <- Heq. apply list_lookup_insert_eq. subst j. lia. }
  apply String.eqb_neq in Hne. now rewrite Hne.
Qed.

End Extraction.

(** C4.  Extraction against the chunks of the packer.  (1) Every range
    recorded in a chunk that [CreateChunks] returns extracts from the
    chunk's bytes, and the bytes have the recorded hash.  (2) A range whose
    [Offset+Size] (the [int64] sum the code computes) exceeds the length of
    the chunk gives the boundary error.  (3) A range inside the chunk
    whose bytes do not hash to the recorded value gives the integrity
    error.  (4) With a hash that has no collisions, changing any one byte
    of such a chunk makes the extraction of some recorded range fail the
    integrity check. *)
Theorem extract_checks_bounds_and_hash `{Hasher} :
  (forall (fs : gmap string Node) (c0 : Chunker.t) (files : list string)
          (ch : ChunkData.t) (r : ChunkFileInfo.t),
     totalLen fs files < 2 ^ 63 ->
     ch ∈ (Chunker.CreateChunks fs c0 files).1 ->
     r ∈ ChunkData.Files ch ->
     exists data,
       Chunker.ExtractFileFromChunk (ChunkData.Data ch) r = Some (Ok data)
       /\ CalculateDataHash data = ChunkFileInfo.Hash r)
  /\ (forall (chunkData : bytes) (r : ChunkFileInfo.t),
        len64 chunkData < add64 (ChunkFileInfo.Offset r) (ChunkFileInfo.Size r) ->
        Chunker.ExtractFileFromChunk chunkData r = Some (Err ErrBeyondChunkBoundary))
  /\ (forall (chunkData data : bytes) (r : ChunkFileInfo.t),
        add64 (ChunkFileInfo.Offset r) (ChunkFileInfo.Size r) <= len64 chunkData ->
        slice chunkData (ChunkFileInfo.Offset r)
              (add64 (ChunkFileInfo.Offset r) (ChunkFileInfo.Size r)) = Some data ->
        CalculateDataHash data <> ChunkFileInfo.Hash r ->
        Chunker.ExtractFileFromChunk chunkData r = Some (Err ErrFileHashMismatch))
  /\ ((forall x y : bytes, sha256Hex x = sha256Hex y -> x = y) ->
      forall (fs : gmap string Node) (c0 : Chunker.t) (files : list string)
             (ch : ChunkData.t) (i : nat) (b : byte),
        totalLen fs files < 2 ^ 63 ->
        ch ∈ (Chunker.CreateChunks fs c0 files).1 ->
        (i < length (ChunkData.Data ch))%nat ->
        ChunkData.Data ch !! i <> Some b ->
        exists r,
          r ∈ ChunkData.Files ch
          /\ Chunker.ExtractFileFromChunk (<[i := b]> (ChunkData.Data ch)) r
             = Some (Err ErrFileHashMismatch)).
Proof.
  repeat split.
  - intros fs c0 files ch r. apply Extract_recorded.
  - apply Extract_beyond.
  - apply Extract_mismatch.
  - intros Hinj fs c0 files ch i b. now apply Extract_mutated.
Qed.

Lemma listingHasher_injective (x y : bytes) :
  sha256Hex (Hasher:=listingHasher) x = sha256Hex (Hasher:=listingHasher) y -> x = y.
Proof.
  simpl. intros Heq.
  rewrite <- (list_byte_of_string_of_list_byte x), <- (list_byte_of_string_of_list_byte y).
  now rewrite Heq.
Qed.

Lemma smallTree_chunks :
  (Chunker.CreateChunks (H:=listingHasher) smallTree Chunker.NewChunker
     ["/w/a.txt"; "/w/b.txt"]).1 = [smallChunk].
Proof. vm_compute. reflexivity. Qed.

Lemma extract_checks_bounds_and_hash_witness :
  (exists data,
     Chunker.ExtractFileFromChunk (H:=listingHasher) (ChunkData.Data smallChunk)
       (ChunkFileInfo.mk "/w/b.txt" 1 2 (string_of_list_byte [x02; x03])) = Some (Ok data)
     /\ CalculateDataHash (H:=listingHasher) data = string_of_list_byte [x02; x03])
  /\ Chunker.ExtractFileFromChunk (H:=listingHasher) [x01]
       (ChunkFileInfo.mk "/w/a.txt" 1 1 (string_of_list_byte [x01]))
     = Some (Err ErrBeyondChunkBoundary)
  /\ Chunker.ExtractFileFromChunk (H:=listingHasher) [x01; x02]
       (ChunkFileInfo.mk "/w/a.txt" 0 1 (string_of_list_byte [x07]))
     = Some (Err ErrFileHashMismatch)
  /\ (exists r,
        r ∈ ChunkData.Files smallChunk
        /\ Chunker.ExtractFileFromChunk (H:=listingHasher)
             (<[2%nat := xff]> (ChunkData.Data smallChunk)) r
           = Some (Err ErrFileHashMismatch)).
Proof.
  destruct (@extract_checks_bounds_and_hash listingHasher) as (P1 & P2 & P3 & P4).
  assert (Hfit : totalLen smallTree ["/w/a.txt"; "/w/b.txt"] < 2 ^ 63)
    by (vm_compute; reflexivity).
  assert (Hin : smallChunk ∈ (Chunker.CreateChunks (H:=listingHasher) smallTree
                                Chunker.NewChunker ["/w/a.txt"; "/w/b.txt"]).1)
    by (rewrite smallTree_chunks; apply list_elem_of_here).
  split; [|split; [|split]].
  - apply (P1 smallTree Chunker.NewChunker ["/w/a.txt"; "/w/b.txt"] smallChunk
              (ChunkFileInfo.mk "/w/b.txt" 1 2 (string_of_list_byte [x02; x03])) Hfit Hin).
    apply list_elem_of_further, list_elem_of_here.
  - apply P2. vm_compute. reflexivity.
  - apply (P3 _ [x01]).
    + vm_compute. discriminate.
    + vm_compute. reflexivity.
    + vm_compute. discriminate.
  - apply (P4 listingHasher_injective smallTree Chunker.NewChunker
              ["/w/a.txt"; "/w/b.txt"] smallChunk 2%nat xff Hfit Hin).
    + simpl. lia.
    + simpl. discriminate.
Defined.

(** ** Chunk file names *)

Lemma append_length (s t : string) :
  String.length (s +:+ t) = (String.length s + String.length t)%nat.
Proof. induction s as [|a s IH]; [reflexivity|]. rewrite append_cons. simpl. now rewrite IH. Qed.

Lemma append_inj_l (s1 s2 t : string) : s1 +:+ t = s2 +:+ t -> s1 = s2.
Proof.
  intros Heq.
  assert (Hlen : String.length s1 = String.length s2).
  { apply (f_equal String.length) in Heq. rewrite !append_length in Heq. lia. }
  revert s2 Heq Hlen. induction s1 as [|a s1 IH]; intros [|b s2] Heq Hlen;
    simpl in Hlen; try discriminate; [reflexivity|].
  rewrite !append_cons in Heq. injection Heq as -> Heq.
  f_equal. apply IH; [exact Heq|lia].
Qed.

Lemma of_uint_padZeros (width : nat) (d : Decimal.uint) :
  N.of_uint (padZeros width d) = N.of_uint d.
Proof.
  unfold padZeros. induction (width - Decimal.nb_digits d)%nat as [|n IH]; [reflexivity|].
  simpl. exact IH.
Qed.

Lemma Sprintf06d_inj (a b : Z) : 0 <= a -> 0 <= b -> Sprintf06d a = Sprintf06d b -> a = b.
Proof.
  intros Ha Hb Heq.
  assert (Hfmt : forall z, 0 <= z ->
            Sprintf06d z = NilEmpty.string_of_uint (padZeros 6 (N.to_uint (Z.to_N z)))).
  { intros [| |]; intros; try reflexivity; lia. }
  rewrite (Hfmt a Ha), (Hfmt b Hb) in Heq.
  apply (f_equal NilEmpty.uint_of_string) in Heq. rewrite !NilEmpty.usu in Heq.
  injection Heq as Heq.
  apply (f_equal N.of_uint) in Heq.
  rewrite !of_uint_padZeros, !DecimalN.Unsigned.of_to in Heq. lia.
Qed.

Lemma chunkFilename_inj (a b : Z) :
  0 <= a -> 0 <= b -> chunkFilename a = chunkFilename b -> a = b.
Proof.
  unfold chunkFilename. intros Ha Hb Heq.
  apply append_inj_r, append_inj_l in Heq. now apply Sprintf06d_inj.
Qed.

(** ** The backup engine: what a batch does to the chunk list *)

Section Batch.
Context `{Hasher} `{Codec}.
Variable env : Env.

Lemma addChunkRef_Chunks (watch : string) (id : Z) (m : Manager.t) (r : ChunkFileInfo.t) :
  Manager.Chunks (Engine.addChunkRef watch id m r) = Manager.Chunks m
  /\ Manager.backupPath (Engine.addChunkRef watch id m r) = Manager.backupPath m.
Proof.
  unfold Engine.addChunkRef.
  destruct (Manager.GetFileInfo m _); split; reflexivity.
Qed.

Lemma addChunkRefs_Chunks (watch : string) (id : Z) (rs : list ChunkFileInfo.t)
    (m : Manager.t) :
  Manager.Chunks (foldl (Engine.addChunkRef watch id) m rs) = Manager.Chunks m
  /\ Manager.backupPath (foldl (Engine.addChunkRef watch id) m rs) = Manager.backupPath m.
Proof.
  revert m. induction rs as [|r rs IH]; intros m; simpl; [split; reflexivity|].
  destruct (IH (Engine.addChunkRef watch id m r)) as [IH1 IH2].
  destruct (addChunkRef_Chunks watch id m r) as [H1 H2].
  split; congruence.
Qed.

Lemma applyChange_Chunks (watch : string) (acc : Manager.t * list string)
    (change : FileChange.t) :
  Manager.Chunks (Engine.applyChange watch acc change).1 = Manager.Chunks acc.1
  /\ Manager.backupPath (Engine.applyChange watch acc change).1 = Manager.backupPath acc.1
  /\ (length (Engine.applyChange watch acc change).2 <= length acc.2 + 1)%nat.
Proof.
  destruct acc as [m ftb]. unfold Engine.applyChange.
  destruct (_ || _).
  - destruct (FileChange.FileInfo change); simpl; rewrite ?length_app; simpl;
      repeat split; lia.
  - destruct (String.eqb _ "DELETE"); simpl; [|repeat split; lia].
    unfold Manager.MarkFileDeleted.
    destruct (Manager.Files m !! _); simpl; repeat split; lia.
Qed.

Lemma applyChanges_Chunks (watch : string) (changes : list FileChange.t)
    (acc : Manager.t * list string) :
  let out := foldl (Engine.applyChange watch) acc changes in
  Manager.Chunks out.1 = Manager.Chunks acc.1
  /\ Manager.backupPath out.1 = Manager.backupPath acc.1
  /\ (length out.2 <= length acc.2 + length changes)%nat.
Proof.
  revert acc. induction changes as [|ch changes IH]; intros acc; simpl.
  - repeat split; lia.
  - destruct (IH (Engine.applyChange watch acc ch)) as (I1 & I2 & I3).
    destruct (applyChange_Chunks watch acc ch) as (A1 & A2 & A3).
    repeat split; try congruence. lia.
Qed.

(** A chunk that can be stored is stored: its file is written and its
    record is appended to the chunk list. *)
Lemma storeChunk_stored (e : Engine.t) (d : Disk) (ch : ChunkData.t) :
  storable env (Engine.backupPath e) ch ->
  exists e' compressed info,
    Engine.storeChunk env e d ch
      = (e', mkDisk (<[chunkPath (Engine.backupPath e) ch := compressed]> (files d))
                    (catalogs d), None)
    /\ Compressor.Compress (ChunkData.Data ch) = Some compressed
    /\ Manager.Chunks (Engine.metadata e') = (Manager.Chunks (Engine.metadata e) ++ [info])%list
    /\ ChunkInfo.ID info = ChunkData.ID ch
    /\ Engine.chunker e' = Engine.chunker e
    /\ Engine.backupPath e' = Engine.backupPath e
    /\ Engine.watchPath e' = Engine.watchPath e.
Proof.
  intros [[compressed Hc] Hw]. unfold Engine.storeChunk, chunkPath in *.
  rewrite Hc, Hw. simpl.
  eexists _, compressed, _. split; [reflexivity|].
  split; [reflexivity|].
  simpl. rewrite (proj1 (addChunkRefs_Chunks _ _ _ _)).
  simpl. repeat split.
Qed.

(** A chunk that cannot be stored stops the loop and changes nothing. *)
Lemma storeChunk_refused (e : Engine.t) (d : Disk) (ch : ChunkData.t) :
  ~ storable env (Engine.backupPath e) ch ->
  exists err, Engine.storeChunk env e d ch = (e, d, Some err).
Proof.
  intros Hno. unfold Engine.storeChunk, storable, chunkPath in *.
  destruct (Compressor.Compress (ChunkData.Data ch)) as [compressed|] eqn:Hc.
  - destruct (writeChunkOk env _) eqn:Hw; simpl.
    + exfalso. apply Hno. split; [eauto|reflexivity].
    + eauto.
  - eauto.
Qed.

Lemma storable_dec (backup : string) (ch : ChunkData.t) :
  storable env backup ch \/ ~ storable env backup ch.
Proof.
  unfold storable.
  destruct (Compressor.Compress (ChunkData.Data ch)) as [c|].
  - destruct (writeChunkOk env (chunkPath backup ch)).
    + left. split; [eauto|reflexivity].
    + right. intros [_ Hw]. discriminate.
  - right. intros [[c Hc] _]. discriminate.
Qed.

(** The loop over the chunks stores a prefix of them: it appends their
    records, in order, and leaves the packer and the catalogs on disk
    alone. *)
Lemma storeChunks_prefix (chunks : list ChunkData.t) (e : Engine.t) (d : Disk) :
  let out := Engine.storeChunks env e d chunks in
  exists stored rest appended,
    chunks = (stored ++ rest)%list
    /\ Manager.Chunks (Engine.metadata out.1.1)
       = (Manager.Chunks (Engine.metadata e) ++ appended)%list
    /\ ChunkInfo.ID <$> appended = ChunkData.ID <$> stored
    /\ Engine.chunker out.1.1 = Engine.chunker e
    /\ Engine.backupPath out.1.1 = Engine.backupPath e
    /\ Engine.watchPath out.1.1 = Engine.watchPath e
    /\ catalogs out.1.2 = catalogs d
    /\ (out.2 = None -> rest = []).
Proof.
  revert e d. induction chunks as [|ch chunks IH]; intros e d; simpl.
  - exists [], [], []. rewrite !app_nil_r. repeat split.
  - destruct (storable_dec (Engine.backupPath e) ch) as [Hs | Hno].
    + destruct (storeChunk_stored e d ch Hs)
        as (e' & compressed & info & -> & _ & Hch & Hid & Hck & Hbp & Hwp).
      destruct (IH e' (mkDisk (<[chunkPath (Engine.backupPath e) ch := compressed]> (files d))
                              (catalogs d)))
        as (stored & rest & appended & -> & Hch' & Hids & Hck' & Hbp' & Hwp' & Hcat & Hrest).
      exists (ch :: stored), rest, (info :: appended).
      rewrite Hch', Hch, <- app_assoc, !fmap_cons, Hids, Hid.
      repeat split; try congruence; [exact Hcat|exact Hrest].
    + destruct (storeChunk_refused e d ch Hno) as [err ->]. simpl.
      exists [], (ch :: chunks), []. rewrite !app_nil_r.
      repeat split. discriminate.
Qed.

Lemma CreateChunks_nil (fs : gmap string Node) (c0 : Chunker.t) :
  (Chunker.CreateChunks fs c0 []).1 = [].
Proof. reflexivity. Qed.

End Batch.

Section BatchShape.
Context `{Hasher} `{Codec}.
Variable env : Env.

Lemma handleChanges_shape (e : Engine.t) (d : Disk) (changes : list FileChange.t) :
  Engine.handleChanges env e d changes = batchSave env (batchStore env e d changes).
Proof.
  unfold Engine.handleChanges, batchStore, batchSave, packed, filesToBackup,
    Engine.createBackupChunks.
  destruct (foldl _ _ changes) as [m1 ftb].
  cbn [fst snd Engine.chunker Engine.withMetadata].
  destruct (0 <? length ftb)%nat.
  - destruct (Chunker.CreateChunks (tree env) (Engine.chunker e) ftb) as [chunks c'].
    cbn [fst snd].
    destruct (Engine.storeChunks env _ d chunks) as [[e2 disk2] [err|]];
      cbn [fst snd]; [reflexivity|].
    destruct (Manager.SaveMetadata env disk2 (Engine.metadata e2)) as [[m3 disk3] saved].
    reflexivity.
  - cbn [fst snd Engine.metadata Engine.withMetadata].
    destruct (Manager.SaveMetadata env d m1) as [[m3 disk3] saved]. reflexivity.
Qed.

Lemma batchSave_Chunks (r : Engine.t * Disk * option error) :
  Manager.Chunks (Engine.metadata (batchSave env r).1.1)
    = Manager.Chunks (Engine.metadata r.1.1)
  /\ Engine.chunker (batchSave env r).1.1 = Engine.chunker r.1.1
  /\ files (batchSave env r).1.2 = files r.1.2.
Proof.
  unfold batchSave. destruct r as [[e d] [err|]]; simpl; [repeat split|].
  split; [apply SaveMetadata_Chunks|]. split; [reflexivity|].
  unfold Manager.SaveMetadata.
  destruct (ensureDirOk env _); simpl; [|reflexivity].
  destruct (persistOk env _); reflexivity.
Qed.

Lemma filesToBackup_length (e : Engine.t) (changes : list FileChange.t) :
  (length (filesToBackup e changes) <= length changes)%nat.
Proof.
  unfold filesToBackup.
  destruct (applyChanges_Chunks (Engine.watchPath e) changes (Engine.metadata e, []))
    as (_ & _ & Hlen).
  simpl in Hlen. exact Hlen.
Qed.

(** What a batch does to the chunk list and to the counter. *)
Lemma batchStore_chunks (e : Engine.t) (d : Disk) (changes : list FileChange.t) :
  - 2 ^ 63 <= Chunker.chunkID (Engine.chunker e) ->
  Chunker.chunkID (Engine.chunker e) + Z.of_nat (length changes) + 1 < 2 ^ 63 ->
  let out := batchStore env e d changes in
  exists stored rest appended,
    packed env e changes = (stored ++ rest)%list
    /\ Manager.Chunks (Engine.metadata out.1.1)
       = (Manager.Chunks (Engine.metadata e) ++ appended)%list
    /\ ChunkInfo.ID <$> appended = ChunkData.ID <$> stored
    /\ Chunker.chunkID (Engine.chunker e) + Z.of_nat (length (packed env e changes))
       <= Chunker.chunkID (Engine.chunker out.1.1)
    /\ Engine.backupPath out.1.1 = Engine.backupPath e
    /\ catalogs out.1.2 = catalogs d
    /\ (out.2 = None -> rest = []).
Proof.
  intros Hlo Hhi out. subst out. unfold batchStore.
  pose proof (filesToBackup_length e changes) as Hlen.
  destruct (applyChanges_Chunks (Engine.watchPath e) changes (Engine.metadata e, []))
    as (Hch1 & Hbp1 & _).
  simpl in Hch1, Hbp1.
  destruct (0 <? length (filesToBackup e changes))%nat eqn:Hne.
  - destruct (CreateChunks_numbered (tree env) (Engine.chunker e)
                (filesToBackup e changes) Hlo ltac:(lia)) as (_ & Hcnt & _ & _).
    match goal with
    | |- context [Engine.storeChunks env ?e1 d ?chunks] =>
        destruct (storeChunks_prefix env chunks e1 d)
          as (stored & rest & appended & Hsplit & Hch & Hids & Hck & Hbp & _ & Hcat & Hrest)
    end.
    exists stored, rest, appended. simpl in *.
    rewrite Hch, Hck, Hbp, Hch1. simpl.
    repeat split; auto.
  - apply Nat.ltb_ge in Hne.
    assert (Hnil : filesToBackup e changes = []).
    { destruct (filesToBackup e changes); [reflexivity|simpl in Hne; lia]. }
    exists [], [], []. unfold packed. rewrite Hnil. simpl.
    rewrite Hch1, app_nil_r. repeat split; lia.
Qed.

End BatchShape.

(** ** Chunk IDs over the life of one engine *)

(** C2, as the code has it.  The counter of a fresh engine is 1 whatever
    catalog [Initialize] loads.  Within one engine the IDs do increase: if
    every chunk of the catalog is below the counter, the chunks a batch
    appends are numbered consecutively from the counter, so each is above
    every chunk already in the list, and the catalog stays below the
    counter the batch leaves. *)
Theorem chunk_ids_increase_within_one_engine `{Hasher} `{Codec}
    (env : Env) (e : Engine.t) (d : Disk) (changes : list FileChange.t) :
  - 2 ^ 63 <= Chunker.chunkID (Engine.chunker e) ->
  Chunker.chunkID (Engine.chunker e) + Z.of_nat (length changes) + 1 < 2 ^ 63 ->
  belowCounter e ->
  let e' := (Engine.handleChanges env e d changes).1.1 in
  (forall (env0 : Env) (d0 : Disk) (now : Z) (watch backup : string),
     Chunker.chunkID
       (Engine.chunker (Engine.Initialize env0 d0 (Engine.NewEngine now watch backup)).1) = 1)
  /\ exists appended,
       Manager.Chunks (Engine.metadata e') = (Manager.Chunks (Engine.metadata e) ++ appended)%list
       /\ (forall (i : nat) ci, appended !! i = Some ci ->
             ChunkInfo.ID ci = Chunker.chunkID (Engine.chunker e) + Z.of_nat i)
       /\ (forall ci old, ci ∈ appended -> old ∈ Manager.Chunks (Engine.metadata e) ->
             ChunkInfo.ID old < ChunkInfo.ID ci)
       /\ belowCounter e'.
Proof.
  intros Hlo Hhi Hbelow e'. split.
  { intros env0 d0 now watch backup. unfold Engine.Initialize.
    destruct (ensureDirOk env0 _); reflexivity. }
  subst e'. rewrite handleChanges_shape.
  destruct (batchStore_chunks env e d changes Hlo Hhi)
    as (stored & rest & appended & Hsplit & Hch & Hids & Hcnt & _ & _ & _).
  destruct (batchSave_Chunks env (batchStore env e d changes)) as (Hs1 & Hs2 & _).
  pose proof (filesToBackup_length e changes) as Hlen.
  destruct (CreateChunks_numbered (tree env) (Engine.chunker e)
              (filesToBackup e changes) Hlo ltac:(lia)) as (Hnum & _ & _ & _).
  fold (packed env e changes) in Hnum.
  assert (Hid : forall (i : nat) ci, appended !! i = Some ci ->
            ChunkInfo.ID ci = Chunker.chunkID (Engine.chunker e) + Z.of_nat i
            /\ (i < length (packed env e changes))%nat).
  { intros i ci Hi.
    assert (Hi' : (ChunkInfo.ID <$> appended) !! i = Some (ChunkInfo.ID ci))
      by (rewrite list_lookup_fmap, Hi; reflexivity).
    rewrite Hids, list_lookup_fmap in Hi'.
    destruct (stored !! i) as [ch|] eqn:Hst; [|discriminate].
    injection Hi' as Hi'. rewrite <- Hi'.
    assert (Hp : packed env e changes !! i = Some ch)
      by (rewrite Hsplit; now apply lookup_app_l_Some).
    split; [now apply Hnum|]. now apply lookup_lt_Some in Hp. }
  exists appended. rewrite Hs1, Hch. split; [reflexivity|].
  split; [intros i ci Hi; now apply Hid|].
  split.
  - intros ci old Hci Hold.
    apply list_elem_of_lookup in Hci as [i Hi]. destruct (Hid i ci Hi) as [-> _].
    unfold belowCounter in Hbelow. rewrite Forall_forall in Hbelow.
    specialize (Hbelow old Hold). lia.
  - unfold belowCounter. rewrite Hs1, Hs2, Hch.
    apply Forall_app. split.
    + unfold belowCounter in Hbelow. eapply Forall_impl; [exact Hbelow|].
      intros ci Hci. simpl in Hci. lia.
    + apply Forall_forall. intros ci Hci.
      apply list_elem_of_lookup in Hci as [i Hi]. destruct (Hid i ci Hi) as [-> Hlt]. lia.
Qed.

Lemma chunk_ids_increase_within_one_engine_witness :
  (forall (env0 : Env) (d0 : Disk) (now : Z) (watch backup : string),
     Chunker.chunkID
       (Engine.chunker (Engine.Initialize env0 d0 (Engine.NewEngine now watch backup)).1) = 1)
  /\ exists appended,
       Manager.Chunks (Engine.metadata firstRun.1.1)
       = (Manager.Chunks (Engine.metadata (Engine.NewEngine 5 "/w" "/b")) ++ appended)%list
       /\ (forall (i : nat) ci, appended !! i = Some ci ->
             ChunkInfo.ID ci
             = Chunker.chunkID (Engine.chunker (Engine.NewEngine 5 "/w" "/b")) + Z.of_nat i)
       /\ (forall ci old, ci ∈ appended ->
             old ∈ Manager.Chunks (Engine.metadata (Engine.NewEngine 5 "/w" "/b")) ->
             ChunkInfo.ID old < ChunkInfo.ID ci)
       /\ belowCounter firstRun.1.1.
Proof.
  apply (@chunk_ids_increase_within_one_engine listingHasher framingCodec
           (calmEnv smallTree 10) (Engine.NewEngine 5 "/w" "/b") emptyDisk
           (Manager.DetectChanges (H:=listingHasher) smallTree
              (Engine.metadata (Engine.NewEngine 5 "/w" "/b")) "/w")).
  - vm_compute. discriminate.
  - vm_compute. reflexivity.
  - unfold belowCounter. simpl. apply Forall_nil_2.
Defined.

(** C2 fails across a restart: the second process starts its counter at 1
    again, so the chunk it appends to the loaded catalog repeats ID 1 (and
    its file replaces [chunk_000001.gz]). *)
Lemma restart_reuses_chunk_id :
  ChunkInfo.ID <$> Manager.Chunks (Engine.metadata restarted) = [1]
  /\ ChunkInfo.ID <$> Manager.Chunks (Engine.metadata secondRun.1.1) = [1; 1]
  /\ ~ belowCounter restarted
  /\ ~ (forall ci old,
          ci ∈ drop 1 (Manager.Chunks (Engine.metadata secondRun.1.1)) ->
          old ∈ Manager.Chunks (Engine.metadata restarted) ->
          ChunkInfo.ID old < ChunkInfo.ID ci).
Proof.
  assert (H1 : Manager.Chunks (Engine.metadata restarted)
               = [ChunkInfo.mk 1 "chunk_000001.gz" 3 (string_of_list_byte [x01; x02; x03]) 5])
    by (vm_compute; reflexivity).
  assert (H2 : Manager.Chunks (Engine.metadata secondRun.1.1)
               = [ChunkInfo.mk 1 "chunk_000001.gz" 3 (string_of_list_byte [x01; x02; x03]) 5;
                  ChunkInfo.mk 1 "chunk_000001.gz" 1 (string_of_list_byte [x09]) 3])
    by (vm_compute; reflexivity).
  assert (H3 : Chunker.chunkID (Engine.chunker restarted) = 1) by (vm_compute; reflexivity).
  rewrite H1, H2. repeat split.
  - unfold belowCounter. rewrite H1, H3. intros Hb.
    apply Forall_cons in Hb as [Hb _]. simpl in Hb. lia.
  - intros Hall.
    specialize (Hall (ChunkInfo.mk 1 "chunk_000001.gz" 1 (string_of_list_byte [x09]) 3)
                     (ChunkInfo.mk 1 "chunk_000001.gz" 3
                        (string_of_list_byte [x01; x02; x03]) 5)).
    simpl in Hall.
    assert (1 < 1); [|lia].
    apply Hall; apply list_elem_of_here.
Qed.

(** ** The backup engine: the chunk files of a batch *)

Section BatchFiles.
Context `{Hasher} `{Codec}.
Variable env : Env.

Lemma storeChunks_all (backup : string) (chunks : list ChunkData.t) (e : Engine.t) (d : Disk) :
  Engine.backupPath e = backup ->
  Forall (storable env backup) chunks ->
  NoDup (chunkPath backup <$> chunks) ->
  let out := Engine.storeChunks env e d chunks in
  out.2 = None
  /\ (forall c0, c0 ∈ chunks ->
        files out.1.2 !! chunkPath backup c0 = Compressor.Compress (ChunkData.Data c0))
  /\ (forall p, p ∉ chunkPath backup <$> chunks -> files out.1.2 !! p = files d !! p).
Proof.
  revert e d. induction chunks as [|ch chunks IH]; intros e d Hbp Hall Hnd; simpl.
  - repeat split; auto. intros c0 Hc0. now apply elem_of_nil in Hc0.
  - apply Forall_cons in Hall as [Hs Hall].
    rewrite fmap_cons in Hnd. apply NoDup_cons in Hnd as [Hfresh Hnd].
    rewrite <- Hbp in Hs.
    destruct (storeChunk_stored env e d ch Hs)
      as (e' & compressed & info & -> & Hc & _ & _ & _ & Hbp' & _).
    rewrite Hbp in *.
    destruct (IH e' (mkDisk (<[chunkPath backup ch := compressed]> (files d)) (catalogs d)))
      as (Hnone & Hfiles & Hframe); [congruence|exact Hall|exact Hnd|].
    split; [exact Hnone|]. split.
    + intros c0 Hc0. apply elem_of_cons in Hc0 as [-> | Hc0]; [|now apply Hfiles].
      rewrite (Hframe _ Hfresh). simpl. now rewrite lookup_insert_eq.
    + intros p Hp. rewrite ?fmap_cons in Hp. apply not_elem_of_cons in Hp as [Hne Hp].
      rewrite (Hframe p Hp). simpl. now rewrite lookup_insert_ne.
Qed.

Lemma storeChunks_stops (backup : string) (stored : list ChunkData.t) (ch : ChunkData.t)
    (rest : list ChunkData.t) (e : Engine.t) (d : Disk) :
  Engine.backupPath e = backup ->
  Forall (storable env backup) stored ->
  ~ storable env backup ch ->
  exists err,
    Engine.storeChunks env e d (stored ++ ch :: rest)
    = ((Engine.storeChunks env e d stored).1, Some err).
Proof.
  revert e d. induction stored as [|c stored IH]; intros e d Hbp Hall Hno; simpl.
  - rewrite <- Hbp in Hno. destruct (storeChunk_refused env e d ch Hno) as [err ->].
    now exists err.
  - apply Forall_cons in Hall as [Hs Hall]. rewrite <- Hbp in Hs.
    destruct (storeChunk_stored env e d c Hs)
      as (e' & compressed & info & -> & _ & _ & _ & _ & Hbp' & _).
    apply IH; [congruence|exact Hall|exact Hno].
Qed.

Lemma storeChunks_None (backup : string) (chunks : list ChunkData.t) (e : Engine.t) (d : Disk) :
  Engine.backupPath e = backup ->
  (Engine.storeChunks env e d chunks).2 = None ->
  Forall (storable env backup) chunks.
Proof.
  revert e d. induction chunks as [|ch chunks IH]; intros e d Hbp Hnone; [constructor|].
  destruct (storable_dec env backup ch) as [Hs | Hno].
  - constructor; [exact Hs|]. simpl in Hnone. rewrite <- Hbp in Hs.
    destruct (storeChunk_stored env e d ch Hs)
      as (e' & compressed & info & Heq & _ & _ & _ & _ & Hbp' & _).
    rewrite Heq in Hnone. eapply IH; [|exact Hnone]. congruence.
  - simpl in Hnone. rewrite <- Hbp in Hno.
    destruct (storeChunk_refused env e d ch Hno) as [err Heq].
    rewrite Heq in Hnone. discriminate.
Qed.

(** Chunks numbered from a non-negative counter go to distinct files. *)
Lemma numbered_paths_NoDup (backup : string) (n0 : Z) (chunks : list ChunkData.t) :
  0 <= n0 ->
  (forall (i : nat) ch, chunks !! i = Some ch -> ChunkData.ID ch = n0 + Z.of_nat i) ->
  NoDup (chunkPath backup <$> chunks).
Proof.
  intros Hn0 Hnum. apply NoDup_alt. intros i j p Hi Hj.
  rewrite list_lookup_fmap in Hi, Hj.
  destruct (chunks !! i) as [ci|] eqn:Hci; [|discriminate].
  destruct (chunks !! j) as [cj|] eqn:Hcj; [|discriminate].
  injection Hi as Hi. injection Hj as Hj. subst p.
  unfold chunkPath in Hj. apply Join_inj in Hj.
  pose proof (Hnum i ci Hci) as Hidi. pose proof (Hnum j cj Hcj) as Hidj.
  apply chunkFilename_inj in Hj; lia.
Qed.

End BatchFiles.

Section BatchAtomicity.
Context `{Hasher} `{Codec}.
Variable env : Env.

Lemma storeChunks_managerPath (chunks : list ChunkData.t) (e : Engine.t) (d : Disk) :
  Manager.backupPath (Engine.metadata (Engine.storeChunks env e d chunks).1.1)
  = Manager.backupPath (Engine.metadata e).
Proof.
  revert e d. induction chunks as [|ch chunks IH]; intros e d; simpl; [reflexivity|].
  unfold Engine.storeChunk.
  destruct (Compressor.Compress (ChunkData.Data ch)) as [compressed|]; [|reflexivity].
  destruct (writeChunkOk env _); simpl; [|reflexivity].
  rewrite IH. simpl. now rewrite (proj2 (addChunkRefs_Chunks _ _ _ _)).
Qed.

Lemma batchStore_managerPath (e : Engine.t) (d : Disk) (changes : list FileChange.t) :
  Manager.backupPath (Engine.metadata (batchStore env e d changes).1.1)
  = Manager.backupPath (Engine.metadata e).
Proof.
  unfold batchStore.
  destruct (applyChanges_Chunks (Engine.watchPath e) changes (Engine.metadata e, []))
    as (_ & Hbp1 & _).
  simpl in Hbp1.
  destruct (0 <? length (filesToBackup e changes))%nat; simpl; [|exact Hbp1].
  rewrite storeChunks_managerPath. simpl. exact Hbp1.
Qed.

(** For the disk and the error, the batch is the loop over its chunks. *)
Lemma batchStore_storeChunks (e : Engine.t) (d : Disk) (changes : list FileChange.t) :
  exists e1,
    Engine.backupPath e1 = Engine.backupPath e
    /\ (batchStore env e d changes).2
       = (Engine.storeChunks env e1 d (packed env e changes)).2
    /\ (batchStore env e d changes).1.2
       = (Engine.storeChunks env e1 d (packed env e changes)).1.2.
Proof.
  unfold batchStore.
  destruct (0 <? length (filesToBackup e changes))%nat eqn:Hne.
  - eexists. split; [|split; reflexivity]. reflexivity.
  - apply Nat.ltb_ge in Hne.
    assert (Hnil : filesToBackup e changes = []).
    { destruct (filesToBackup e changes); [reflexivity|simpl in Hne; lia]. }
    unfold packed. rewrite Hnil. simpl.
    exists e. repeat split.
Qed.

Lemma batchSave_error (r : Engine.t * Disk * option error) :
  ((batchSave env r).2 = None -> r.2 = None)
  /\ (forall err, r.2 = Some err ->
        (batchSave env r).2 = Some (ErrCreateBackupChunks err)
        /\ catalogs (batchSave env r).1.2 = catalogs r.1.2)
  /\ ((batchSave env r).2 = None ->
        catalogs (batchSave env r).1.2
          !! Manager.metadataPath (Engine.metadata r.1.1)
        = Some (Manager.metadata (Engine.metadata (batchSave env r).1.1))).
Proof.
  unfold batchSave. destruct r as [[e d] [err|]]; simpl.
  - split; [discriminate|]. split; [|discriminate].
    intros err' [= ->]. split; reflexivity.
  - split; [reflexivity|]. split; [discriminate|].
    unfold Manager.SaveMetadata.
    destruct (ensureDirOk env _); simpl; [|discriminate].
    destruct (persistOk env _); simpl; [|discriminate].
    intros _. now rewrite lookup_insert_eq.
Qed.

(** C9.  A batch writes the catalog only after every chunk of the batch
    is compressed and written.  (1) If some chunk of the batch cannot be
    compressed or written, the batch returns the chunk error, the catalog
    on disk is the one from before the batch, and the files of the chunks
    stored before the failure hold their compressed bytes.  (2) If the
    batch returns no error, or the catalog on disk changed, then every
    chunk of the batch was stored and its file holds its compressed bytes.
    (3) When the batch returns no error the catalog on disk is the catalog
    in memory. *)
Theorem catalog_written_only_after_chunks_stored
    (e : Engine.t) (d : Disk) (changes : list FileChange.t) :
  0 <= Chunker.chunkID (Engine.chunker e) ->
  Chunker.chunkID (Engine.chunker e) + Z.of_nat (length changes) + 1 < 2 ^ 63 ->
  let out := Engine.handleChanges env e d changes in
  let chunks := packed env e changes in
  let backup := Engine.backupPath e in
  (forall stored ch rest,
     chunks = (stored ++ ch :: rest)%list ->
     Forall (storable env backup) stored ->
     ~ storable env backup ch ->
     (exists err, out.2 = Some (ErrCreateBackupChunks err))
     /\ catalogs out.1.2 = catalogs d
     /\ forall c0, c0 ∈ stored ->
          files out.1.2 !! chunkPath backup c0 = Compressor.Compress (ChunkData.Data c0))
  /\ (out.2 = None \/ catalogs out.1.2 <> catalogs d ->
      Forall (storable env backup) chunks
      /\ forall c0, c0 ∈ chunks ->
           files out.1.2 !! chunkPath backup c0 = Compressor.Compress (ChunkData.Data c0))
  /\ (out.2 = None ->
      catalogs out.1.2 !! Manager.metadataPath (Engine.metadata e)
      = Some (Manager.metadata (Engine.metadata out.1.1))).
Proof.
  intros Hlo Hhi out chunks backup. subst out.
  rewrite handleChanges_shape.
  pose proof (filesToBackup_length e changes) as Hlen.
  destruct (CreateChunks_numbered (tree env) (Engine.chunker e)
              (filesToBackup e changes) ltac:(lia) ltac:(lia)) as (Hnum & _ & _ & _).
  fold (packed env e changes) in Hnum. fold chunks in Hnum.
  pose proof (numbered_paths_NoDup backup _ chunks Hlo Hnum) as Hnd.
  destruct (batchStore_storeChunks e d changes) as (e1 & Hbp & Herr & Hdisk).
  fold chunks in Herr, Hdisk. fold backup in Hbp.
  set (r := batchStore env e d changes) in *.
  destruct (batchSave_error r) as (Hs1 & Hs2 & Hs3).
  destruct (batchSave_Chunks env r) as (_ & _ & Hsf).
  destruct (storeChunks_prefix env chunks e1 d)
    as (_ & _ & _ & _ & _ & _ & _ & _ & _ & Hcat0 & _).
  split; [|split].
  - intros stored ch rest Hsplit Hall Hno.
    destruct (storeChunks_stops env backup stored ch rest e1 d Hbp Hall Hno) as [err Hstop].
    rewrite <- Hsplit in Hstop.
    rewrite Hstop in Herr, Hdisk. simpl in Herr, Hdisk.
    destruct (Hs2 err Herr) as [He Hc].
    split; [eauto|]. split.
    + rewrite Hc, Hdisk.
      destruct (storeChunks_prefix env stored e1 d)
        as (_ & _ & _ & _ & _ & _ & _ & _ & _ & Hcat & _).
      exact Hcat.
    + intros c0 Hc0. rewrite Hsf, Hdisk.
      rewrite Hsplit, fmap_app in Hnd. apply NoDup_app in Hnd as (Hnd & _ & _).
      destruct (storeChunks_all env backup stored e1 d Hbp Hall Hnd) as (_ & Hfiles & _).
      now apply Hfiles.
  - intros Hok.
    assert (Hnone : r.2 = None).
    { destruct Hok as [Hok | Hchanged]; [now apply Hs1|].
      destruct (r.2) as [err|] eqn:Hr; [|reflexivity].
      exfalso. apply Hchanged. destruct (Hs2 err eq_refl) as [_ Hc].
      rewrite Hc, Hdisk. exact Hcat0. }
    rewrite Herr in Hnone.
    pose proof (storeChunks_None env backup chunks e1 d Hbp Hnone) as Hall.
    split; [exact Hall|].
    intros c0 Hc0. rewrite Hsf, Hdisk.
    destruct (storeChunks_all env backup chunks e1 d Hbp Hall Hnd) as (_ & Hfiles & _).
    now apply Hfiles.
  - intros Hok. rewrite <- (Hs3 Hok). f_equal.
    unfold Manager.metadataPath. f_equal.
    subst r. symmetry. apply batchStore_managerPath.
Qed.

End BatchAtomicity.

Lemma largeChanges_packed :
  packed (H:=listingHasher) pickyEnv (Engine.NewEngine 5 "/w" "/b") largeChanges
  = [largeChunkA; largeChunkB].
Proof.
  unfold packed.
  assert (Hf : filesToBackup (Engine.NewEngine 5 "/w" "/b") largeChanges
               = ["/w/a.txt"; "/w/b.txt"]) by (vm_compute; reflexivity).
  rewrite Hf.
  exact (@two_files_two_chunks listingHasher largeTree Chunker.NewChunker
           "/w/a.txt" "/w/b.txt" twoMiB fourMiB 0 0 largeTree_a largeTree_b
           ltac:(rewrite twoMiB_length, fourMiB_length; unfold ChunkSize; lia)
           ltac:(rewrite twoMiB_length, fourMiB_length; lia)).
Qed.

Lemma catalog_written_only_after_chunks_stored_witness :
  (* the second chunk of the batch is refused *)
  ((exists err,
      (@Engine.handleChanges listingHasher framingCodec pickyEnv
         (Engine.NewEngine 5 "/w" "/b") emptyDisk largeChanges).2
      = Some (ErrCreateBackupChunks err))
   /\ catalogs (@Engine.handleChanges listingHasher framingCodec pickyEnv
                  (Engine.NewEngine 5 "/w" "/b") emptyDisk largeChanges).1.2
      = catalogs emptyDisk
   /\ forall c0, c0 ∈ [largeChunkA] ->
        files (@Engine.handleChanges listingHasher framingCodec pickyEnv
                 (Engine.NewEngine 5 "/w" "/b") emptyDisk largeChanges).1.2
          !! chunkPath "/b" c0
        = Compressor.Compress (H:=framingCodec) (ChunkData.Data c0))
  (* a batch that succeeds *)
  /\ (Forall (storable (H:=framingCodec) (calmEnv smallTree 10) "/b") [smallChunk]
      /\ forall c0, c0 ∈ [smallChunk] ->
           files firstRun.1.2 !! chunkPath "/b" c0
           = Compressor.Compress (H:=framingCodec) (ChunkData.Data c0))
  /\ catalogs firstRun.1.2 !! "/b/metadata.json"
     = Some (Manager.metadata (Engine.metadata firstRun.1.1)).
Proof.
  split; [|split].
  - destruct (@catalog_written_only_after_chunks_stored listingHasher framingCodec
                pickyEnv (Engine.NewEngine 5 "/w" "/b") emptyDisk largeChanges)
      as (P1 & _ & _); [simpl; lia|simpl; lia|].
    apply (P1 [largeChunkA] largeChunkB []).
    + apply largeChanges_packed.
    + apply Forall_singleton. split; [eexists; reflexivity|reflexivity].
    + intros [_ Hw]. discriminate Hw.
  - destruct (@catalog_written_only_after_chunks_stored listingHasher framingCodec
                (calmEnv smallTree 10) (Engine.NewEngine 5 "/w" "/b") emptyDisk
                (Manager.DetectChanges (H:=listingHasher) smallTree
                   (Engine.metadata (Engine.NewEngine 5 "/w" "/b")) "/w"))
      as (_ & P2 & _); [simpl; lia|vm_compute; reflexivity|].
    assert (Hp : packed (H:=listingHasher) (calmEnv smallTree 10)
                   (Engine.NewEngine 5 "/w" "/b")
                   (Manager.DetectChanges (H:=listingHasher) smallTree
                      (Engine.metadata (Engine.NewEngine 5 "/w" "/b")) "/w")
                 = [smallChunk]) by (vm_compute; reflexivity).
    rewrite Hp in P2. apply P2. left. vm_compute. reflexivity.
  - destruct (@catalog_written_only_after_chunks_stored listingHasher framingCodec
                (calmEnv smallTree 10) (Engine.NewEngine 5 "/w" "/b") emptyDisk
                (Manager.DetectChanges (H:=listingHasher) smallTree
                   (Engine.metadata (Engine.NewEngine 5 "/w" "/b")) "/w"))
      as (_ & _ & P3); [simpl; lia|vm_compute; reflexivity|].
    apply P3. vm_compute. reflexivity.
Defined.

(** ** Reconciliation: the walk *)

Section Walk.
Context `{Hasher}.
Variables (fs : gmap string Node) (watchPath : string).

Lemma Walk_elem (path : string) :
  path ∈ Manager.Walk fs watchPath <-> is_Some (Rel watchPath path) /\ is_Some (fs !! path).
Proof.
  unfold Manager.Walk. rewrite list_elem_of_filter, list_elem_of_fmap.
  split; intros [Hrel Hin]; (split; [exact Hrel|]).
  - destruct Hin as ([p node] & -> & Hin). apply elem_of_map_to_list in Hin. simpl. eauto.
  - destruct Hin as [node Hnode]. exists (path, node). split; [reflexivity|].
    now apply elem_of_map_to_list.
Qed.

Lemma visit_lookup (acc : gmap string FileInfo.t) (path relPath : string) :
  Manager.visit fs watchPath acc path !! relPath =
    if decide (path = Join watchPath relPath)
    then match walked fs watchPath relPath with
         | Some info => Some info
         | None => acc !! relPath
         end
    else acc !! relPath.
Proof.
  unfold Manager.visit, walked, Stat, CalculateFileHash, ReadFile.
  destruct (decide (path = Join watchPath relPath)) as [-> | Hne].
  - rewrite Rel_Join.
    destruct (fs !! Join watchPath relPath) as [[|data mtime [|]]|]; simpl; try reflexivity.
    now rewrite lookup_insert_eq.
  - destruct (fs !! path) as [[|data mtime [|]]|]; simpl; try reflexivity.
    + destruct (Rel watchPath path) as [rel|] eqn:Hrel; [|reflexivity].
      apply Rel_Some in Hrel. rewrite lookup_insert_ne; [reflexivity|].
      intros ->. now apply Hne.
    + destruct (Rel watchPath path); reflexivity.
Qed.

Lemma foldl_visit_lookup (paths : list string) (acc : gmap string FileInfo.t)
    (relPath : string) :
  foldl (Manager.visit fs watchPath) acc paths !! relPath =
    if decide (Join watchPath relPath ∈ paths)
    then match walked fs watchPath relPath with
         | Some info => Some info
         | None => acc !! relPath
         end
    else acc !! relPath.
Proof.
  revert acc. induction paths as [|path paths IH]; intros acc; simpl.
  - destruct (decide (Join watchPath relPath ∈ [])) as [Hin|]; [|reflexivity].
    now apply elem_of_nil in Hin.
  - rewrite IH, visit_lookup.
    destruct (decide (Join watchPath relPath ∈ paths)) as [Hin | Hnin];
      destruct (decide (path = Join watchPath relPath)) as [-> | Hne];
      destruct (decide (Join watchPath relPath ∈ _ :: paths)) as [Hin' | Hnin'];
      try reflexivity;
      try (destruct (walked fs watchPath relPath); reflexivity);
      exfalso.
    + apply Hnin'. now apply list_elem_of_further.
    + apply Hnin'. now apply list_elem_of_further.
    + apply Hnin'. apply list_elem_of_here.
    + apply elem_of_cons in Hin' as [Heq | Hin']; [now apply Hne|now apply Hnin].
Qed.

(** The map built by the walk holds exactly the regular readable files
    below the watched directory. *)
Lemma currentFiles_lookup (relPath : string) :
  Manager.currentFiles fs watchPath !! relPath = walked fs watchPath relPath.
Proof.
  unfold Manager.currentFiles. rewrite foldl_visit_lookup, lookup_empty.
  destruct (decide (_ ∈ _)) as [Hin | Hnin].
  - destruct (walked fs watchPath relPath); reflexivity.
  - unfold walked.
    destruct (fs !! Join watchPath relPath) as [[|data mtime [|]]|] eqn:Hf; try reflexivity.
    exfalso. apply Hnin. apply Walk_elem. rewrite Rel_Join, Hf. split; eauto.
Qed.

End Walk.

(** ** Reconciliation: the events *)

Section Events.
Context `{Hasher}.

Lemma newOrModified_Some (m : Manager.t) (path : string) (info : FileInfo.t)
    (change : FileChange.t) :
  Manager.newOrModified m (path, info) = Some change <->
    (Manager.Files m !! path = None
     /\ change = FileChange.mk path "CREATE" (Some info))
    \/ (exists storedInfo,
          Manager.Files m !! path = Some storedInfo
          /\ FileInfo.IsDeleted storedInfo = false
          /\ (FileInfo.Hash storedInfo <> FileInfo.Hash info
              \/ FileInfo.ModTime storedInfo <> FileInfo.ModTime info)
          /\ change = FileChange.mk path "MODIFY" (Some info)).
Proof.
  unfold Manager.newOrModified.
  destruct (Manager.Files m !! path) as [st|].
  - destruct (FileInfo.IsDeleted st) eqn:Hd; simpl.
    + split; [discriminate|].
      intros [[Hn _] | (st' & [= <-] & Hd' & _)]; [discriminate|congruence].
    + destruct (String.eqb_spec (FileInfo.Hash st) (FileInfo.Hash info)) as [Hh | Hh];
        destruct (Z.eqb_spec (FileInfo.ModTime st) (FileInfo.ModTime info)) as [Ht | Ht];
        simpl; split;
        try (intros [= <-]; right; exists st; repeat split; auto; fail);
        try discriminate;
        intros [[Hn _] | (st' & [= <-] & _ & Hdiff & ->)];
        try discriminate; try reflexivity;
        destruct Hdiff; contradiction.
  - split.
    + intros [= <-]. left. split; reflexivity.
    + intros [[_ ->] | (st' & Hst & _)]; [reflexivity|discriminate].
Qed.

Lemma deleted_Some (current : gmap string FileInfo.t) (path : string)
    (storedInfo : FileInfo.t) (change : FileChange.t) :
  Manager.deleted current (path, storedInfo) = Some change <->
    FileInfo.IsDeleted storedInfo = false
    /\ current !! path = None
    /\ change = FileChange.mk path "DELETE" None.
Proof.
  unfold Manager.deleted.
  destruct (FileInfo.IsDeleted storedInfo); simpl.
  - split; [discriminate|]. intros [Hd _]. discriminate.
  - destruct (current !! path).
    + split; [discriminate|]. intros (_ & Hn & _). discriminate.
    + split; [intros [= <-]; repeat split|]. intros (_ & _ & ->). reflexivity.
Qed.

(** The events of [DetectChanges], whatever the order of the two map
    ranges: CREATE for a walked file without record, MODIFY for a walked
    file whose live record differs in hash or time, DELETE for a live
    record that was not walked. *)
Lemma DetectChanges_elem (fs : gmap string Node) (m : Manager.t) (watchPath : string)
    (change : FileChange.t) :
  change ∈ Manager.DetectChanges fs m watchPath <->
    (exists path info,
       walked fs watchPath path = Some info
       /\ Manager.Files m !! path = None
       /\ change = FileChange.mk path "CREATE" (Some info))
    \/ (exists path info storedInfo,
          walked fs watchPath path = Some info
          /\ Manager.Files m !! path = Some storedInfo
          /\ FileInfo.IsDeleted storedInfo = false
          /\ (FileInfo.Hash storedInfo <> FileInfo.Hash info
              \/ FileInfo.ModTime storedInfo <> FileInfo.ModTime info)
          /\ change = FileChange.mk path "MODIFY" (Some info))
    \/ (exists path storedInfo,
          Manager.Files m !! path = Some storedInfo
          /\ FileInfo.IsDeleted storedInfo = false
          /\ walked fs watchPath path = None
          /\ change = FileChange.mk path "DELETE" None).
Proof.
  unfold Manager.DetectChanges.
  rewrite elem_of_app, !list_elem_of_omap. split.
  - intros [([path info] & Hin & Hsome) | ([path st] & Hin & Hsome)].
    + apply elem_of_map_to_list in Hin. rewrite currentFiles_lookup in Hin.
      apply newOrModified_Some in Hsome as [[Hn ->] | (st & Hst & Hd & Hdiff & ->)].
      * left. exists path, info. auto.
      * right. left. exists path, info, st. auto.
    + apply elem_of_map_to_list in Hin.
      apply deleted_Some in Hsome as (Hd & Hn & ->).
      rewrite currentFiles_lookup in Hn.
      right. right. exists path, st. auto.
  - intros [(path & info & Hw & Hn & ->)
           | [(path & info & st & Hw & Hst & Hd & Hdiff & ->)
             | (path & st & Hst & Hd & Hw & ->)]].
    + left. exists (path, info). split.
      * apply elem_of_map_to_list. now rewrite currentFiles_lookup.
      * apply newOrModified_Some. left. auto.
    + left. exists (path, info). split.
      * apply elem_of_map_to_list. now rewrite currentFiles_lookup.
      * apply newOrModified_Some. right. exists st. auto.
    + right. exists (path, st). split.
      * now apply elem_of_map_to_list.
      * apply deleted_Some. rewrite currentFiles_lookup. auto.
Qed.

(** A walked file whose record is a tombstone gets no event at all. *)
Lemma tombstoned_path_no_event (fs : gmap string Node) (m : Manager.t)
    (watchPath path : string) (storedInfo : FileInfo.t) (change : FileChange.t) :
  Manager.Files m !! path = Some storedInfo ->
  FileInfo.IsDeleted storedInfo = true ->
  change ∈ Manager.DetectChanges fs m watchPath ->
  FileChange.Path change <> path.
Proof.
  intros Hst Hd Hin Heq.
  apply DetectChanges_elem in Hin
    as [(p & info & _ & Hn & ->)
       | [(p & info & st & _ & Hst' & Hd' & _ & ->) | (p & st & Hst' & Hd' & _ & ->)]];
    simpl in Heq; subst p; congruence.
Qed.

End Events.

(** C6 on the code.  [a.txt] is backed up, deleted and written again.
    The deletion is reported as one DELETE event; the tombstone it leaves
    makes the walk of the new file report nothing, where the claim asks
    for a CREATE event. *)
Theorem recreated_file_yields_no_event :
  Manager.DetectChanges (H:=listingHasher) shrunkTree (Engine.metadata firstRun.1.1) "/w"
  = [FileChange.mk "a.txt" "DELETE" None]
  /\ FileInfo.IsDeleted <$> Manager.Files (Engine.metadata afterDelete.1.1) !! "a.txt"
     = Some true
  /\ walked (H:=listingHasher) regrownTree "/w" "a.txt"
     = Some (FileInfo.mk "a.txt" 2 400 (string_of_list_byte [x05; x06]) [] false)
  /\ Manager.DetectChanges (H:=listingHasher) regrownTree
       (Engine.metadata afterDelete.1.1) "/w" = [].
Proof. repeat split; vm_compute; reflexivity. Qed.

(** ** Reconciliation after a full backup *)

Section Idempotence.
Context `{Hasher} `{Codec}.

Lemma settled_no_changes (fs : gmap string Node) (m : Manager.t) (watchPath : string) :
  settled (Manager.currentFiles fs watchPath) (Manager.Files m) ->
  Manager.DetectChanges fs m watchPath = [].
Proof.
  intros [Hcur Hlive].
  destruct (Manager.DetectChanges fs m watchPath) as [|change rest] eqn:Hd; [reflexivity|].
  exfalso.
  assert (Hin : change ∈ Manager.DetectChanges fs m watchPath)
    by (rewrite Hd; apply list_elem_of_here).
  apply DetectChanges_elem in Hin
    as [(p & info & Hw & Hn & _)
       | [(p & info & st & Hw & Hst & Hdel & Hdiff & _) | (p & st & Hst & Hdel & Hw & _)]].
  - rewrite <- currentFiles_lookup in Hw.
    destruct (Hcur p info Hw) as (st & Hst & _). congruence.
  - rewrite <- currentFiles_lookup in Hw.
    destruct (Hcur p info Hw) as (st' & Hst' & Hok).
    assert (st' = st) by congruence. subst st'.
    destruct Hok as [Hd' | [Hh Ht]]; [congruence|].
    destruct Hdiff; contradiction.
  - rewrite <- currentFiles_lookup in Hw.
    destruct (Hlive p st Hst Hdel) as [info Hinfo]. congruence.
Qed.

Lemma settled_fingerprint (current stored stored' : gmap string FileInfo.t) :
  (forall path, fingerprint <$> stored' !! path = fingerprint <$> stored !! path) ->
  settled current stored -> settled current stored'.
Proof.
  intros Hfp [Hcur Hlive]. split.
  - intros path info Hinfo. destruct (Hcur path info Hinfo) as (st & Hst & Hok).
    specialize (Hfp path). rewrite Hst in Hfp.
    destruct (stored' !! path) as [st'|]; [|discriminate].
    simpl in Hfp. injection Hfp as Hh Ht Hd.
    exists st'. split; [reflexivity|]. rewrite Hh, Ht, Hd. exact Hok.
  - intros path st' Hst' Hd. specialize (Hfp path). rewrite Hst' in Hfp.
    destruct (stored !! path) as [st|] eqn:Hst; [|discriminate].
    simpl in Hfp. injection Hfp as Hh Ht Hd'.
    apply (Hlive path st Hst). congruence.
Qed.

Lemma applyChange_lookup (watch : string) (acc : Manager.t * list string)
    (change : FileChange.t) (path : string) :
  Manager.Files (Engine.applyChange watch acc change).1 !! path =
    if decide (FileChange.Path change = path)
    then effect change (Manager.Files acc.1 !! path)
    else Manager.Files acc.1 !! path.
Proof.
  destruct acc as [m ftb]. unfold Engine.applyChange, effect. simpl.
  destruct (_ || _).
  - destruct (FileChange.FileInfo change) as [info|]; simpl.
    + unfold Manager.UpdateFileInfo, Manager.Files. simpl.
      destruct (decide (FileChange.Path change = path)) as [-> | Hne].
      * now rewrite lookup_insert_eq.
      * now rewrite lookup_insert_ne.
    + destruct (decide _); reflexivity.
  - destruct (String.eqb _ "DELETE"); simpl; [|destruct (decide _); reflexivity].
    unfold Manager.MarkFileDeleted.
    destruct (decide (FileChange.Path change = path)) as [-> | Hne].
    + destruct (Manager.Files m !! path) as [info|] eqn:Hinfo; simpl.
      * unfold Manager.Files at 1. simpl. now rewrite lookup_insert_eq.
      * now rewrite Hinfo.
    + destruct (Manager.Files m !! FileChange.Path change) as [info|]; simpl; [|reflexivity].
      unfold Manager.Files at 1. simpl. now rewrite lookup_insert_ne.
Qed.

Lemma applyChanges_lookup (watch : string) (changes : list FileChange.t)
    (acc : Manager.t * list string) (path : string) :
  Manager.Files (foldl (Engine.applyChange watch) acc changes).1 !! path =
    foldl (fun record change =>
             if decide (FileChange.Path change = path) then effect change record else record)
          (Manager.Files acc.1 !! path) changes.
Proof.
  revert acc. induction changes as [|change changes IH]; intros acc; simpl; [reflexivity|].
  now rewrite IH, applyChange_lookup.
Qed.

(** When all the changes for [path] act alike, and acting twice is acting
    once, the record after the loop is the record acted on once, or the
    record as it was when no change names the path. *)
Lemma uniform_effect (path : string) (g : option FileInfo.t -> option FileInfo.t)
    (changes : list FileChange.t) (record : option FileInfo.t) :
  (forall o, g (g o) = g o) ->
  (forall change, change ∈ changes -> FileChange.Path change = path ->
     forall o, effect change o = g o) ->
  let after :=
    foldl (fun record change =>
             if decide (FileChange.Path change = path) then effect change record else record)
          record changes in
  (after = g record /\ exists change, change ∈ changes /\ FileChange.Path change = path)
  \/ (after = record /\ forall change, change ∈ changes -> FileChange.Path change <> path).
Proof.
  intros Hidem. revert record.
  induction changes as [|change changes IH]; intros record Hall; simpl.
  - right. split; [reflexivity|]. intros c Hc. now apply elem_of_nil in Hc.
  - assert (Hall' : forall c, c ∈ changes -> FileChange.Path c = path ->
                      forall o, effect c o = g o).
    { intros c Hc. apply Hall. now apply list_elem_of_further. }
    destruct (decide (FileChange.Path change = path)) as [Heq | Hne].
    + left. rewrite (Hall change (list_elem_of_here _ _) Heq).
      split; [|exists change; split; [apply list_elem_of_here|exact Heq]].
      destruct (IH (g record) Hall') as [[-> _] | [-> _]]; [apply Hidem|reflexivity].
    + destruct (IH record Hall') as [[Hr (c & Hc & Hp)] | [Hr Hnone]].
      * left. split; [exact Hr|]. exists c. split; [now apply list_elem_of_further|exact Hp].
      * right. split; [exact Hr|]. intros c Hc.
        apply elem_of_cons in Hc as [-> | Hc]; [exact Hne|now apply Hnone].
Qed.

End Idempotence.

Section FullBackup.
Context `{Hasher} `{Codec}.

(** The first loop of [handleChanges], run on the changes [DetectChanges]
    found, leaves a catalog with nothing more to report. *)
Lemma changes_applied_settle (fs : gmap string Node) (m : Manager.t)
    (watchPath watch : string) :
  settled (Manager.currentFiles fs watchPath)
    (Manager.Files
       (foldl (Engine.applyChange watch) (m, [])
              (Manager.DetectChanges fs m watchPath)).1).
Proof.
  set (changes := Manager.DetectChanges fs m watchPath).
  assert (Hchar : forall change, change ∈ changes <-> _)
    by (intros change; apply DetectChanges_elem).
  split.
  - intros path info Hinfo. rewrite currentFiles_lookup in Hinfo.
    rewrite applyChanges_lookup. simpl.
    destruct (uniform_effect path (fun _ => Some info) changes (Manager.Files m !! path))
      as [[-> _] | [-> Hnone]].
    + reflexivity.
    + intros change Hin Hpath o. apply Hchar in Hin
        as [(p & info' & Hw & _ & ->)
           | [(p & info' & st & Hw & _ & _ & _ & ->) | (p & st & _ & _ & Hw & ->)]];
        simpl in Hpath; subst p.
      * unfold effect. simpl. congruence.
      * unfold effect. simpl. congruence.
      * congruence.
    + exists info. split; [reflexivity|]. right. split; reflexivity.
    + destruct (Manager.Files m !! path) as [st|] eqn:Hst.
      * exists st. split; [reflexivity|].
        destruct (FileInfo.IsDeleted st) eqn:Hd; [now left|]. right.
        destruct (decide (FileInfo.Hash st = FileInfo.Hash info)) as [Hh | Hh];
          destruct (decide (FileInfo.ModTime st = FileInfo.ModTime info)) as [Ht | Ht];
          [split; assumption| | |];
          exfalso;
          apply (Hnone (FileChange.mk path "MODIFY" (Some info)));
          try reflexivity;
          apply Hchar; right; left; exists path, info, st; repeat split; auto.
      * exfalso. apply (Hnone (FileChange.mk path "CREATE" (Some info))); [|reflexivity].
        apply Hchar. left. exists path, info. repeat split; auto.
  - intros path st' Hst' Hlive. rewrite currentFiles_lookup.
    destruct (walked fs watchPath path) as [info|] eqn:Hw; [eauto|]. exfalso.
    rewrite applyChanges_lookup in Hst'. simpl in Hst'.
    destruct (uniform_effect path (fmap Manager.markDeleted) changes
                (Manager.Files m !! path)) as [[Hafter _] | [Hafter Hnone]].
    + intros [o|]; reflexivity.
    + intros change Hin Hpath o. apply Hchar in Hin
        as [(p & info' & Hw' & _ & ->)
           | [(p & info' & st & Hw' & _ & _ & _ & ->) | (p & st & _ & _ & _ & ->)]];
        simpl in Hpath; subst p; try congruence.
      reflexivity.
    + rewrite Hafter in Hst'.
      destruct (Manager.Files m !! path) as [st|]; [|discriminate].
      simpl in Hst'. injection Hst' as <-. discriminate.
    + rewrite Hafter in Hst'.
      apply (Hnone (FileChange.mk path "DELETE" None)); [|reflexivity].
      apply Hchar. right. right. exists path, st'. repeat split; auto.
Qed.

Lemma addChunkRef_fingerprint (watch : string) (id : Z) (m : Manager.t)
    (r : ChunkFileInfo.t) (path : string) :
  fingerprint <$> Manager.Files (Engine.addChunkRef watch id m r) !! path
  = fingerprint <$> Manager.Files m !! path.
Proof.
  unfold Engine.addChunkRef, Manager.GetFileInfo.
  set (relPath := default "" (Rel watch (ChunkFileInfo.Path r))).
  destruct (Manager.Files m !! relPath) as [st|] eqn:Hst; [|reflexivity].
  unfold Manager.UpdateFileInfo. unfold Manager.Files at 1. simpl.
  destruct (decide (relPath = path)) as [<- | Hne].
  - now rewrite lookup_insert_eq, Hst.
  - now rewrite lookup_insert_ne.
Qed.

Lemma addChunkRefs_fingerprint (watch : string) (id : Z) (rs : list ChunkFileInfo.t)
    (m : Manager.t) (path : string) :
  fingerprint <$> Manager.Files (foldl (Engine.addChunkRef watch id) m rs) !! path
  = fingerprint <$> Manager.Files m !! path.
Proof.
  revert m. induction rs as [|r rs IH]; intros m; simpl; [reflexivity|].
  now rewrite IH, addChunkRef_fingerprint.
Qed.

Lemma storeChunks_fingerprint (env : Env) (chunks : list ChunkData.t) (e : Engine.t)
    (d : Disk) (path : string) :
  fingerprint <$> Manager.Files (Engine.metadata (Engine.storeChunks env e d chunks).1.1)
                  !! path
  = fingerprint <$> Manager.Files (Engine.metadata e) !! path
  /\ Engine.watchPath (Engine.storeChunks env e d chunks).1.1 = Engine.watchPath e.
Proof.
  revert e d. induction chunks as [|ch chunks IH]; intros e d; simpl; [split; reflexivity|].
  unfold Engine.storeChunk.
  destruct (Compressor.Compress (ChunkData.Data ch)) as [compressed|]; [|split; reflexivity].
  destruct (writeChunkOk env _); simpl; [|split; reflexivity].
  match goal with
  | |- context [Engine.storeChunks env ?e1 ?d1 chunks] => destruct (IH e1 d1) as [IH1 IH2]
  end.
  rewrite IH1, IH2. simpl. split; [|reflexivity].
  now rewrite addChunkRefs_fingerprint.
Qed.

(** C7.  Reconciliation is idempotent: after a full backup
    ([DetectChanges], then one batch on the changes it found), a second
    [DetectChanges] on the same tree finds nothing, whether or not the
    chunks of the batch could be stored.  (The pointer [&currentInfo] of
    each change is taken per iteration, as Go 1.22 does.) *)
Theorem reconcile_after_full_backup_is_empty (env : Env) (e : Engine.t) (d : Disk) :
  let e' := (Engine.PerformFullBackup env e d).1.1 in
  Engine.watchPath e' = Engine.watchPath e
  /\ Manager.DetectChanges (tree env) (Engine.metadata e') (Engine.watchPath e') = [].
Proof.
  intros e'. subst e'. unfold Engine.PerformFullBackup.
  rewrite handleChanges_shape.
  set (changes := Manager.DetectChanges (tree env) (Engine.metadata e) (Engine.watchPath e)).
  assert (Hstore : forall path,
            fingerprint <$> Manager.Files (Engine.metadata (batchStore env e d changes).1.1)
                            !! path
            = fingerprint <$> Manager.Files
                (foldl (Engine.applyChange (Engine.watchPath e)) (Engine.metadata e, [])
                       changes).1 !! path
            /\ Engine.watchPath (batchStore env e d changes).1.1 = Engine.watchPath e).
  { intros path. unfold batchStore.
    destruct (0 <? length (filesToBackup e changes))%nat; [|split; reflexivity].
    match goal with
    | |- context [Engine.storeChunks env ?e1 d ?chunks] =>
        destruct (storeChunks_fingerprint env chunks e1 d path) as [-> ->]
    end.
    split; reflexivity. }
  assert (Hsave : forall r,
            Manager.Files (Engine.metadata (batchSave env r).1.1)
            = Manager.Files (Engine.metadata r.1.1)
            /\ Engine.watchPath (batchSave env r).1.1 = Engine.watchPath r.1.1).
  { intros [[e2 d2] [err|]]; unfold batchSave; simpl; [split; reflexivity|].
    split; [apply SaveMetadata_Files|reflexivity]. }
  destruct (Hsave (batchStore env e d changes)) as [HsF HsW].
  rewrite HsW, (proj2 (Hstore "")). split; [reflexivity|].
  apply settled_no_changes. rewrite HsF.
  apply (settled_fingerprint _
           (Manager.Files
              (foldl (Engine.applyChange (Engine.watchPath e)) (Engine.metadata e, [])
                     changes).1)).
  - intros path. apply Hstore.
  - apply changes_applied_settle.
Qed.

End FullBackup.

(** ** The restore engine *)

Section RestoreFacts.
Context `{Hasher} `{Codec}.
Variables (renv : RestoreEnv) (d : Disk) (e : Restore.t).



Variable chunkMap : gmap Z ChunkInfo.t.

Let targetOf (info : FileInfo.t) : string :=
  Join (Restore.targetPath e) (FileInfo.Path info).

(** One iteration of the loop of [RestoreAll], seen from a target path. *)
Lemma restoreOne_lookup (target : gmap string Node) (failed : list (string * error))
    (kv : string * FileInfo.t) (path : string) :
  (Restore.restoreOne renv d e chunkMap (target, failed) kv).1 !! path =
    if decide (targetOf kv.2 = path)
    then if FileInfo.IsDeleted kv.2 then target !! path
         else match Restore.fileBytes renv d e chunkMap kv.2 with
              | Ok fileData => Some (restoredNode renv e kv.2 fileData)
              | Err _ => target !! path
              end
    else target !! path.
Proof.
  unfold Restore.restoreOne, Restore.restoreFile, restoredNode, targetOf.
  destruct (FileInfo.IsDeleted kv.2); simpl; [destruct (decide _); reflexivity|].
  destruct (Restore.fileBytes renv d e chunkMap kv.2) as [fileData|err]; simpl;
    [|destruct (decide _); reflexivity].
  destruct (decide (Join (Restore.targetPath e) (FileInfo.Path kv.2) = path)) as [<- | Hne].
  - now rewrite lookup_insert_eq.
  - now rewrite lookup_insert_ne.
Qed.



End RestoreFacts.






(** C1 on the code.  [a.txt] (one byte) and [b.txt] (two bytes) are
    packed into one chunk by the first backup.  Restoring gives [a.txt]
    the three bytes of the whole chunk, not its own byte, in whichever
    order the two files were packed; only the modification time is the
    recorded one. *)
Theorem restore_writes_whole_chunk :
  ReadFile smallTree "/w/a.txt" = Some [x01]
  /\ FileInfo.ChunkRefs <$> Manager.Files (Engine.metadata firstRun.1.1) !! "a.txt"
     = Some [1]
  /\ (@Restore.RestoreAll listingHasher framingCodec (calmRestoreEnv 40) firstRun.1.2
        (restorer firstRun.1.2) ∅).1.1 !! "/t/a.txt"
     = Some (File [x01; x02; x03] 100 true)
  /\ (@Restore.RestoreAll listingHasher framingCodec (calmRestoreEnv 40) firstRun.1.2
        (restorer firstRun.1.2) ∅).2 = None
  /\ (@Restore.RestoreAll listingHasher framingCodec (calmRestoreEnv 40)
        firstRunReversed.1.2 (restorer firstRunReversed.1.2) ∅).1.1 !! "/t/a.txt"
     = Some (File [x02; x03; x01] 100 true).
Proof. repeat split; vm_compute; reflexivity. Qed.

(** ** The debouncer *)

Section Debounce.
Variable path : string.







End Debounce.

Section Bursts.
Variable path : string.




End Bursts.





(** * Further properties of the code *)

(** ** The chunker *)

Section Packing.
Context `{Hasher}.
Variable fs : gmap string Node.

(** All the bytes and all the recorded paths the loop holds, in order. *)
Let allData (v : Chunker.vars) : bytes :=
  (concat (ChunkData.Data <$> Chunker.chunks v) ++ ChunkData.Data (Chunker.currentChunk v))%list.

Let allPaths (v : Chunker.vars) : list string :=
  (ChunkFileInfo.Path <$> concat (ChunkData.Files <$> Chunker.chunks v))
  ++ (ChunkFileInfo.Path <$> ChunkData.Files (Chunker.currentChunk v)).

Lemma step_keeps_bytes (v : Chunker.vars) (path : string) :
  (ChunkData.Files (Chunker.currentChunk v) = [] ->
   ChunkData.Data (Chunker.currentChunk v) = []) ->
  allData (Chunker.step fs v path) = (allData v ++ default [] (ReadFile fs path))%list
  /\ allPaths (Chunker.step fs v path)
     = (allPaths v ++ match ReadFile fs path with Some _ => [path] | None => [] end)%list
  /\ (ChunkData.Files (Chunker.currentChunk (Chunker.step fs v path)) = [] ->
      ChunkData.Data (Chunker.currentChunk (Chunker.step fs v path)) = []).
Proof.
  intros Hinv. unfold Chunker.step, Stat, CalculateFileHash, ReadFile.
  destruct (fs !! path) as [[|data mtime readable]|]; simpl;
    try (rewrite !app_nil_r; auto; fail).
  set (v1 := if Chunker.mustSeal v (len64 data) then Chunker.sealCurrent v else v).
  assert (Hv1 : allData v1 = allData v /\ allPaths v1 = allPaths v
                /\ (ChunkData.Files (Chunker.currentChunk v1) = [] ->
                    ChunkData.Data (Chunker.currentChunk v1) = [])).
  { subst v1. destruct (Chunker.mustSeal v (len64 data)); [|auto].
    unfold allData, allPaths, Chunker.sealCurrent. simpl.
    rewrite !fmap_app, !concat_app, !fmap_app. simpl. rewrite !app_nil_r. auto. }
  destruct Hv1 as (Hd & Hp & Hinv1).
  destruct readable; simpl; [|rewrite !app_nil_r; auto].
  unfold allData, allPaths, Chunker.addFile in *. simpl.
  rewrite fmap_app, !app_assoc, Hd, Hp. simpl. repeat split.
  intros Hnil. now apply app_eq_nil in Hnil as [_ Hnil].
Qed.

Lemma foldl_keeps_bytes (files : list string) (v : Chunker.vars) :
  (ChunkData.Files (Chunker.currentChunk v) = [] ->
   ChunkData.Data (Chunker.currentChunk v) = []) ->
  let v' := foldl (Chunker.step fs) v files in
  allData v' = (allData v ++ concat (omap (ReadFile fs) files))%list
  /\ allPaths v' = (allPaths v ++ filter (fun path => is_Some (ReadFile fs path)) files)%list
  /\ (ChunkData.Files (Chunker.currentChunk v') = [] ->
      ChunkData.Data (Chunker.currentChunk v') = []).
Proof.
  revert v. induction files as [|path files IH]; intros v Hinv v'; subst v'; cbn [foldl].
  - simpl. rewrite !app_nil_r. auto.
  - destruct (step_keeps_bytes v path Hinv) as (Hd & Hp & Hinv').
    pose proof (IH (Chunker.step fs v path) Hinv') as IH1. cbv zeta in IH1.
    destruct IH1 as (IHd & IHp & IHinv).
    rewrite IHd, IHp, Hd, Hp, <- !app_assoc. split; [|split; [|exact IHinv]].
    + f_equal. simpl. destruct (ReadFile fs path); reflexivity.
    + f_equal. destruct (ReadFile fs path) eqn:Hr.
      * rewrite filter_cons_True by (rewrite Hr; eauto). reflexivity.
      * rewrite filter_cons_False; [reflexivity|]. rewrite Hr. intros [x Hx]. discriminate.
Qed.

(** X1.  The packer loses nothing and invents nothing: the bytes of the
    chunks [CreateChunks] returns, put end to end, are the bytes of the
    regular readable files of its input, in the order of the input, and
    the paths it records are those files, in that order.  Everything else
    (missing paths, directories, unreadable files) is skipped. *)
Theorem CreateChunks_keeps_every_byte (c0 : Chunker.t) (files : list string) :
  concat (ChunkData.Data <$> (Chunker.CreateChunks fs c0 files).1)
    = concat (omap (ReadFile fs) files)
  /\ ChunkFileInfo.Path <$> concat (ChunkData.Files <$> (Chunker.CreateChunks fs c0 files).1)
     = filter (fun path => is_Some (ReadFile fs path)) files.
Proof.
  unfold Chunker.CreateChunks. cbn [fst].
  pose proof (foldl_keeps_bytes files (Chunker.init c0) (fun _ => eq_refl)) as Hf.
  cbv zeta in Hf. destruct Hf as (Hd & Hp & Hinv).
  set (v := foldl (Chunker.step fs) (Chunker.init c0) files) in *.
  unfold allData, allPaths in Hd, Hp. simpl in Hd, Hp.
  unfold Chunker.finish.
  destruct (0 <? length (ChunkData.Files (Chunker.currentChunk v)))%nat eqn:Hne.
  - rewrite !fmap_app, !concat_app, fmap_app. simpl. rewrite !app_nil_r. auto.
  - apply Nat.ltb_ge in Hne.
    assert (Hnil : ChunkData.Files (Chunker.currentChunk v) = [])
      by (destruct (ChunkData.Files (Chunker.currentChunk v)); [reflexivity|simpl in Hne; lia]).
    pose proof (Hinv Hnil) as Hdnil. rewrite Hnil in Hp. rewrite Hdnil in Hd.
    simpl in Hd, Hp. rewrite !app_nil_r in Hd, Hp. auto.
Qed.

(** X3.  A call that finds nothing to pack returns no chunk and still
    uses up one ID: when no path of the input is a regular readable file
    (in particular for an empty input), the counter is one higher after
    the call. *)
Theorem CreateChunks_nothing_to_pack (c0 : Chunker.t) (files : list string) :
  Forall (fun path => ReadFile fs path = None) files ->
  Chunker.CreateChunks fs c0 files = ([], Chunker.mk (wrap64 (Chunker.chunkID c0 + 1))).
Proof.
  intros Hnone. unfold Chunker.CreateChunks.
  assert (Hfold : foldl (Chunker.step fs) (Chunker.init c0) files = Chunker.init c0).
  { induction Hnone as [|path files Hp Hrest IH]; [reflexivity|]. cbn [foldl].
    assert (Hstep : Chunker.step fs (Chunker.init c0) path = Chunker.init c0).
    { unfold Chunker.step, Stat, ReadFile in *.
      destruct (fs !! path) as [[|data mtime [|]]|]; try reflexivity; [discriminate|].
      simpl. unfold Chunker.mustSeal. simpl. now rewrite andb_false_r. }
    now rewrite Hstep. }
  rewrite Hfold. reflexivity.
Qed.

(** X2.  The shape of the chunks [CreateChunks] returns (for an input of
    fewer than [2^63] bytes): a chunk is never empty, its hash is the hash
    of its own bytes, the sizes it records add up to its length, and a
    chunk that holds more than one file is within [ChunkSize]. *)
Theorem CreateChunks_chunk_shape (c0 : Chunker.t) (files : list string) (ch : ChunkData.t) :
  totalLen fs files < 2 ^ 63 ->
  ch ∈ (Chunker.CreateChunks fs c0 files).1 ->
  ChunkData.Files ch <> []
  /\ ChunkData.Hash ch = CalculateDataHash (ChunkData.Data ch)
  /\ recordedSize (ChunkData.Files ch) = Z.of_nat (length (ChunkData.Data ch))
  /\ ((1 < length (ChunkData.Files ch))%nat ->
      Z.of_nat (length (ChunkData.Data ch)) <= ChunkSize).
Proof.
  intros Hfit Hch.
  pose proof (CreateChunks_closed fs c0 files Hfit) as Hall.
  rewrite Forall_forall in Hall.
  destruct (Hall ch Hch) as (Ht & Hb & Hne & Hh & _).
  repeat split; auto.
  - exact (layout_length 0 _ _ Ht).
  - intros Hmany. destruct Hb as [Hone | Hsmall]; [lia|exact Hsmall].
Qed.

End Packing.

Section Extraction.
Context `{Hasher}.

(** X4.  A record that lies inside the chunk is always answered, never
    with a panic: for a non-negative offset and size that end within the
    chunk, [ExtractFileFromChunk] cuts exactly [Size] bytes starting at
    [Offset] and returns them when their hash is the recorded one, and the
    hash-mismatch error otherwise. *)
Theorem extract_in_range_returns_the_slice (chunkData : bytes) (r : ChunkFileInfo.t) :
  Z.of_nat (length chunkData) < 2 ^ 63 ->
  0 <= ChunkFileInfo.Offset r ->
  0 <= ChunkFileInfo.Size r ->
  ChunkFileInfo.Offset r + ChunkFileInfo.Size r <= Z.of_nat (length chunkData) ->
  let data := take (Z.to_nat (ChunkFileInfo.Size r))
                   (drop (Z.to_nat (ChunkFileInfo.Offset r)) chunkData) in
  Z.of_nat (length data) = ChunkFileInfo.Size r
  /\ Chunker.ExtractFileFromChunk chunkData r
     = Some (if String.eqb (CalculateDataHash data) (ChunkFileInfo.Hash r)
             then Ok data else Err ErrFileHashMismatch).
Proof.
  intros Hlen Ho Hs Hin data. subst data. split.
  - rewrite length_take, length_drop. lia.
  - unfold Chunker.ExtractFileFromChunk. cbv zeta.
    rewrite len64_small by exact Hlen.
    rewrite add64_small by (unfold in_int64; lia).
    destruct (Z.ltb_spec (Z.of_nat (length chunkData))
                (ChunkFileInfo.Offset r + ChunkFileInfo.Size r)) as [Hlt|_]; [lia|].
    unfold slice.
    destruct (Z.leb_spec 0 (ChunkFileInfo.Offset r)); [|lia].
    destruct (Z.leb_spec (ChunkFileInfo.Offset r)
                (ChunkFileInfo.Offset r + ChunkFileInfo.Size r)); [|lia].
    destruct (Z.leb_spec (ChunkFileInfo.Offset r + ChunkFileInfo.Size r)
                (Z.of_nat (length chunkData))); [|lia].
    cbn [andb].
    replace (ChunkFileInfo.Offset r + ChunkFileInfo.Size r - ChunkFileInfo.Offset r)
      with (ChunkFileInfo.Size r) by lia.
    destruct (String.eqb _ _); reflexivity.
Qed.

(** X5.  When the extraction panics.  The boundary check only compares
    the (wrapped) end of the record with the length of the chunk, so a
    record that passes it with a negative offset, or with an end that
    wrapped below its offset, reaches the slice expression and panics
    there; in every other case the function returns. *)
Theorem extract_panics_iff (chunkData : bytes) (r : ChunkFileInfo.t) :
  Z.of_nat (length chunkData) < 2 ^ 63 ->
  Chunker.ExtractFileFromChunk chunkData r = None
  <-> add64 (ChunkFileInfo.Offset r) (ChunkFileInfo.Size r) <= Z.of_nat (length chunkData)
      /\ (ChunkFileInfo.Offset r < 0
          \/ add64 (ChunkFileInfo.Offset r) (ChunkFileInfo.Size r) < ChunkFileInfo.Offset r).
Proof.
  intros Hlen. unfold Chunker.ExtractFileFromChunk. cbv zeta.
  rewrite len64_small by exact Hlen.
  set (off := ChunkFileInfo.Offset r).
  set (high := add64 off (ChunkFileInfo.Size r)).
  destruct (Z.ltb_spec (Z.of_nat (length chunkData)) high) as [Hlt|Hge].
  - split; [discriminate|]. intros [Hle _]. lia.
  - unfold slice.
    destruct (Z.leb_spec 0 off), (Z.leb_spec off high),
             (Z.leb_spec high (Z.of_nat (length chunkData))); cbn [andb];
      try (split; [intros _; split; [assumption|lia] | reflexivity]); try lia.
    split; [|intros [_ [?|?]]; lia].
    destruct (String.eqb _ _); discriminate.
Qed.

End Extraction.

Lemma CreateChunks_chunk_shape_witness :
  ChunkData.Files smallChunk <> []
  /\ ChunkData.Hash smallChunk = CalculateDataHash (H:=listingHasher) (ChunkData.Data smallChunk)
  /\ recordedSize (ChunkData.Files smallChunk) = Z.of_nat (length (ChunkData.Data smallChunk))
  /\ ((1 < length (ChunkData.Files smallChunk))%nat ->
      Z.of_nat (length (ChunkData.Data smallChunk)) <= ChunkSize).
Proof.
  apply (@CreateChunks_chunk_shape listingHasher smallTree Chunker.NewChunker
           ["/w/a.txt"; "/w/b.txt"] smallChunk).
  - vm_compute. reflexivity.
  - rewrite smallTree_chunks. apply list_elem_of_here.
Defined.

Lemma CreateChunks_nothing_to_pack_witness :
  Chunker.CreateChunks (H:=listingHasher) smallTree (Chunker.mk 7) ["/w"; "/w/none.txt"]
  = ([], Chunker.mk 8).
Proof.
  apply (@CreateChunks_nothing_to_pack listingHasher smallTree (Chunker.mk 7)
           ["/w"; "/w/none.txt"]).
  repeat constructor.
Defined.

Lemma extract_in_range_returns_the_slice_witness :
  Z.of_nat (length [x02; x03]) = 2
  /\ Chunker.ExtractFileFromChunk (H:=listingHasher) [x01; x02; x03]
       (ChunkFileInfo.mk "/w/b.txt" 1 2 (string_of_list_byte [x02; x03]))
     = Some (Ok [x02; x03]).
Proof.
  apply (@extract_in_range_returns_the_slice listingHasher [x01; x02; x03]
           (ChunkFileInfo.mk "/w/b.txt" 1 2 (string_of_list_byte [x02; x03])));
    vm_compute; congruence.
Defined.

Lemma extract_panics_iff_witness :
  Chunker.ExtractFileFromChunk (H:=listingHasher) [x01]
    (ChunkFileInfo.mk "/w/a.txt" (-1) 1 (string_of_list_byte [x01])) = None.
Proof.
  apply (proj2 (@extract_panics_iff listingHasher [x01]
                  (ChunkFileInfo.mk "/w/a.txt" (-1) 1 (string_of_list_byte [x01]))
                  eq_refl)).
  split; [vm_compute; discriminate | left; reflexivity].
Defined.

(** ** The catalog manager *)

Lemma markDeleted_idemp (info : FileInfo.t) :
  Manager.markDeleted (Manager.markDeleted info) = Manager.markDeleted info.
Proof. reflexivity. Qed.

Lemma MarkFileDeleted_alter (m : Manager.t) (path : string) :
  Manager.MarkFileDeleted m path
  = Manager.withFiles m (alter Manager.markDeleted path (Manager.Files m)).
Proof.
  unfold Manager.MarkFileDeleted.
  destruct (Manager.Files m !! path) as [info|] eqn:Hl.
  - f_equal. apply map_eq. intros k. destruct (decide (k = path)) as [->|Hne].
    + now rewrite lookup_insert_eq, lookup_alter_eq, Hl.
    + now rewrite lookup_insert_ne, lookup_alter_ne by congruence.
  - replace (alter Manager.markDeleted path (Manager.Files m)) with (Manager.Files m).
    + destruct m as [bp [v c u f cs]]. reflexivity.
    + apply map_eq. intros k. destruct (decide (k = path)) as [->|Hne].
      * now rewrite lookup_alter_eq, Hl.
      * now rewrite lookup_alter_ne by congruence.
Qed.

Lemma withFiles_withFiles (m : Manager.t) (a b : gmap string FileInfo.t) :
  Manager.withFiles (Manager.withFiles m a) b = Manager.withFiles m b.
Proof. reflexivity. Qed.

Lemma alter_markDeleted_idemp (path : string) (fs : gmap string FileInfo.t) :
  alter Manager.markDeleted path (alter Manager.markDeleted path fs)
  = alter Manager.markDeleted path fs.
Proof.
  apply map_eq. intros k. destruct (decide (k = path)) as [->|Hne].
  - rewrite !lookup_alter_eq. now destruct (fs !! path).
  - now rewrite !lookup_alter_ne by congruence.
Qed.

Lemma alter_markDeleted_comm (path other : string) (fs : gmap string FileInfo.t) :
  alter Manager.markDeleted other (alter Manager.markDeleted path fs)
  = alter Manager.markDeleted path (alter Manager.markDeleted other fs).
Proof.
  apply map_eq. intros k.
  destruct (decide (k = path)) as [Hp|Hp], (decide (k = other)) as [Ho|Ho]; subst;
    repeat first [rewrite lookup_alter_eq | rewrite lookup_alter_ne by congruence];
    reflexivity.
Qed.

(** X6.  [MarkFileDeleted] only ever sets the deletion flag of the one
    record it is given: the record of [path], if there is one, becomes its
    tombstone and every other record and the chunk list stay as they
    are.  Marking twice is marking once, and marks of different paths can
    be made in any order. *)
Theorem MarkFileDeleted_only_sets_the_flag (m : Manager.t) (path other : string) :
  Manager.Files (Manager.MarkFileDeleted m path)
    = alter Manager.markDeleted path (Manager.Files m)
  /\ Manager.Chunks (Manager.MarkFileDeleted m path) = Manager.Chunks m
  /\ Manager.MarkFileDeleted (Manager.MarkFileDeleted m path) path
     = Manager.MarkFileDeleted m path
  /\ Manager.MarkFileDeleted (Manager.MarkFileDeleted m path) other
     = Manager.MarkFileDeleted (Manager.MarkFileDeleted m other) path.
Proof.
  repeat split.
  - now rewrite MarkFileDeleted_alter.
  - now rewrite MarkFileDeleted_alter.
  - rewrite (MarkFileDeleted_alter (Manager.MarkFileDeleted m path)).
    rewrite !MarkFileDeleted_alter, withFiles_withFiles.
    change (Manager.Files (Manager.withFiles m ?a)) with a.
    now rewrite alter_markDeleted_idemp.
  - rewrite (MarkFileDeleted_alter (Manager.MarkFileDeleted m path)).
    rewrite (MarkFileDeleted_alter (Manager.MarkFileDeleted m other)).
    rewrite !MarkFileDeleted_alter, !withFiles_withFiles.
    change (Manager.Files (Manager.withFiles m ?a)) with a.
    now rewrite alter_markDeleted_comm.
Qed.

Section Reconcile.
Context `{Hasher}.
Variable fs : gmap string Node.

Lemma omap_paths_NoDup {A} (f : string * A -> option FileChange.t) (l : list (string * A)) :
  (forall kv change, f kv = Some change -> FileChange.Path change = kv.1) ->
  NoDup l.*1 ->
  NoDup (FileChange.Path <$> omap f l).
Proof.
  intros Hf. induction l as [|kv l IH]; intros Hnd; [constructor|].
  apply NoDup_cons in Hnd as [Hnin Hnd]. simpl.
  destruct (f kv) as [change|] eqn:Hkv; [|auto].
  simpl. apply NoDup_cons. split; [|auto].
  intros Hin. apply list_elem_of_fmap in Hin as (change' & Heq & Hin).
  apply list_elem_of_omap in Hin as (kv' & Hin & Hkv').
  apply Hnin. apply list_elem_of_fmap. exists kv'. split; [|exact Hin].
  rewrite <- (Hf _ _ Hkv), <- (Hf _ _ Hkv'). exact Heq.
Qed.


(** X8.  One reconciliation reports a path at most once: no two changes
    of the list [DetectChanges] returns have the same path. *)
Theorem DetectChanges_one_change_per_path (m : Manager.t) (watchPath : string) :
  NoDup (FileChange.Path <$> Manager.DetectChanges fs m watchPath).
Proof.
  unfold Manager.DetectChanges. rewrite fmap_app. apply NoDup_app. repeat split.
  - apply omap_paths_NoDup; [|apply NoDup_fst_map_to_list].
    intros [path info] change Hc.
    apply newOrModified_Some in Hc as [[_ ->] | (st & _ & _ & _ & ->)]; reflexivity.
  - intros path Hin1 Hin2.
    apply list_elem_of_fmap in Hin1 as (c1 & -> & Hin1).
    apply list_elem_of_omap in Hin1 as ([p1 info] & Hin1 & Hc1).
    apply elem_of_map_to_list in Hin1.
    apply list_elem_of_fmap in Hin2 as (c2 & Heq & Hin2).
    apply list_elem_of_omap in Hin2 as ([p2 st] & _ & Hc2).
    apply deleted_Some in Hc2 as (_ & Hnone & ->). simpl in Heq.
    assert (Hp : FileChange.Path c1 = p1)
      by (apply newOrModified_Some in Hc1 as [[_ ->] | (? & _ & _ & _ & ->)]; reflexivity).
    congruence.
  - apply omap_paths_NoDup; [|apply NoDup_fst_map_to_list].
    intros [path st] change Hc.
    apply deleted_Some in Hc as (_ & _ & ->). reflexivity.
Qed.

(** X9.  A file that is still there but cannot be read is reported as
    deleted: the walk drops a file whose hash cannot be computed, so a
    live record of its path gets a DELETE change (and the next backup
    turns the record into a tombstone). *)
Theorem unreadable_file_is_reported_deleted (m : Manager.t) (watchPath path : string)
    (storedInfo : FileInfo.t) (data : bytes) (mtime : Z) :
  Manager.Files m !! path = Some storedInfo ->
  FileInfo.IsDeleted storedInfo = false ->
  fs !! Join watchPath path = Some (File data mtime false) ->
  FileChange.mk path "DELETE" None ∈ Manager.DetectChanges fs m watchPath.
Proof.
  intros Hst Hlive Hfile. apply DetectChanges_elem. right. right.
  exists path, storedInfo. repeat split; auto.
  unfold walked. now rewrite Hfile.
Qed.

End Reconcile.

(** ** The backup engine *)

Section Batches.
Context `{Hasher} `{Codec}.
Variable env : Env.

Lemma batchSave_Files (r : Engine.t * Disk * option error) :
  Manager.Files (Engine.metadata (batchSave env r).1.1)
  = Manager.Files (Engine.metadata r.1.1).
Proof.
  unfold batchSave. destruct r as [[e d] [err|]]; [reflexivity|].
  cbn [fst snd Engine.metadata Engine.withMetadata]. apply SaveMetadata_Files.
Qed.

(** X10.  What a live event of the watcher does to the backup.  The
    batch [runBackup] builds from an event carries no file record, so
    [handleChanges] packs nothing for it: no chunk file is written, the
    chunk list and the chunk counter stay as they are, and the records
    stay as they are too, except that a DELETE event turns the record
    filed under the event's path, if there is one, into a tombstone. *)
Theorem watcher_event_packs_nothing (e : Engine.t) (d : Disk) (event : FileEvent.t) :
  let out := Engine.handleChanges env e d (Main.changesOfEvent event) in
  files out.1.2 = files d
  /\ Manager.Chunks (Engine.metadata out.1.1) = Manager.Chunks (Engine.metadata e)
  /\ Engine.chunker out.1.1 = Engine.chunker e
  /\ Manager.Files (Engine.metadata out.1.1)
     = if String.eqb (FileEvent.Operation event) "DELETE"
       then alter Manager.markDeleted (FileEvent.Path event) (Manager.Files (Engine.metadata e))
       else Manager.Files (Engine.metadata e).
Proof.
  intros out. subst out. rewrite handleChanges_shape.
  destruct (batchSave_Chunks env (batchStore env e d (Main.changesOfEvent event)))
    as (Hc & Hk & Hf).
  rewrite Hc, Hk, Hf, batchSave_Files.
  unfold batchStore, filesToBackup, Main.changesOfEvent. cbn [foldl].
  unfold Engine.applyChange.
  cbn [FileChange.Operation FileChange.FileInfo FileChange.Path].
  destruct (String.eqb (FileEvent.Operation event) "CREATE"
            || String.eqb (FileEvent.Operation event) "MODIFY") eqn:Hop.
  - assert (Hnd : String.eqb (FileEvent.Operation event) "DELETE" = false).
    { apply orb_true_iff in Hop as [Hop|Hop]; apply String.eqb_eq in Hop;
        rewrite Hop; reflexivity. }
    rewrite Hnd. cbn. auto.
  - destruct (String.eqb (FileEvent.Operation event) "DELETE"); cbn.
    + repeat split.
      * now rewrite MarkFileDeleted_alter.
      * now rewrite MarkFileDeleted_alter.
    + auto.
Qed.

End Batches.

Section Catalog.
Context `{Hasher} `{Codec}.
Variable env : Env.

Lemma effect_is_Some (change : FileChange.t) (record : option FileInfo.t) :
  is_Some record -> is_Some (effect change record).
Proof.
  intros [info ->]. unfold effect.
  destruct (String.eqb _ "CREATE" || String.eqb _ "MODIFY").
  - destruct (FileChange.FileInfo change); eauto.
  - destruct (String.eqb _ "DELETE"); simpl; eauto.
Qed.

Lemma applyChanges_is_Some (watch : string) (changes : list FileChange.t)
    (acc : Manager.t * list string) (path : string) :
  is_Some (Manager.Files acc.1 !! path) ->
  is_Some (Manager.Files (foldl (Engine.applyChange watch) acc changes).1 !! path).
Proof.
  rewrite applyChanges_lookup. generalize (Manager.Files acc.1 !! path).
  induction changes as [|change changes IH]; intros record Hsome; [exact Hsome|].
  cbn [foldl]. apply IH. destruct (decide _); [now apply effect_is_Some|exact Hsome].
Qed.

Lemma batchStore_is_Some (e : Engine.t) (d : Disk) (changes : list FileChange.t)
    (path : string) :
  is_Some (Manager.Files (Engine.metadata e) !! path) ->
  is_Some (Manager.Files (Engine.metadata (batchStore env e d changes).1.1) !! path).
Proof.
  intros Hsome.
  pose proof (applyChanges_is_Some (Engine.watchPath e) changes (Engine.metadata e, [])
                path Hsome) as Hm1.
  unfold batchStore. destruct (0 <? _)%nat; [|exact Hm1].
  apply fmap_is_Some with (f := fingerprint).
  rewrite (proj1 (storeChunks_fingerprint env _ _ d path)).
  apply fmap_is_Some. exact Hm1.
Qed.

Lemma batchStore_Chunks_prefix (e : Engine.t) (d : Disk) (changes : list FileChange.t) :
  Manager.Chunks (Engine.metadata e)
    `prefix_of` Manager.Chunks (Engine.metadata (batchStore env e d changes).1.1).
Proof.
  pose proof (applyChanges_Chunks (Engine.watchPath e) changes (Engine.metadata e, []))
    as Hm1. cbv zeta in Hm1. destruct Hm1 as (Hm1 & _).
  unfold batchStore. destruct (0 <? _)%nat.
  - match goal with
    | |- _ `prefix_of` Manager.Chunks (Engine.metadata (Engine.storeChunks env ?e1 d ?chs).1.1) =>
        pose proof (storeChunks_prefix env chs e1 d) as Hp
    end.
    cbv zeta in Hp. destruct Hp as (stored & rest & appended & _ & Hc & _).
    rewrite Hc. cbn [Engine.metadata Engine.withChunker Engine.withMetadata].
    rewrite Hm1. now exists appended.
  - cbn [fst Engine.metadata Engine.withMetadata]. now rewrite Hm1.
Qed.

(** X11.  A batch never forgets anything: whatever the changes and
    whether or not the batch fails, every path that had a record before
    [handleChanges] has one after it, and the chunk list after it starts
    with the chunk list before it. *)
Theorem handleChanges_never_forgets (e : Engine.t) (d : Disk) (changes : list FileChange.t) :
  dom (Manager.Files (Engine.metadata e))
    ⊆ dom (Manager.Files (Engine.metadata (Engine.handleChanges env e d changes).1.1))
  /\ Manager.Chunks (Engine.metadata e)
     `prefix_of` Manager.Chunks (Engine.metadata (Engine.handleChanges env e d changes).1.1).
Proof.
  rewrite handleChanges_shape, batchSave_Files.
  rewrite (proj1 (batchSave_Chunks env _)). split.
  - intros path Hin. apply elem_of_dom in Hin. apply elem_of_dom.
    now apply batchStore_is_Some.
  - apply batchStore_Chunks_prefix.
Qed.

Lemma refsResolve_ext (m m' : Manager.t) :
  Manager.Files m' = Manager.Files m ->
  Manager.Chunks m' = Manager.Chunks m ->
  refsResolve m -> refsResolve m'.
Proof. unfold refsResolve. intros -> ->. auto. Qed.

Lemma applyChanges_refsResolve (watch : string) (changes : list FileChange.t)
    (acc : Manager.t * list string) :
  Forall (fun change => forall info, FileChange.FileInfo change = Some info ->
                                     FileInfo.ChunkRefs info = []) changes ->
  refsResolve acc.1 ->
  refsResolve (foldl (Engine.applyChange watch) acc changes).1.
Proof.
  intros Hall. revert acc.
  induction Hall as [|change changes Hc _ IH]; intros acc Hres; [exact Hres|].
  cbn [foldl]. apply IH. intros path info id Hl Hid.
  rewrite applyChange_lookup in Hl.
  destruct (applyChange_Chunks watch acc change) as (Hchunks & _). rewrite Hchunks.
  destruct (decide _) as [_|_]; [|exact (Hres path info id Hl Hid)].
  unfold effect in Hl.
  destruct (String.eqb _ "CREATE" || String.eqb _ "MODIFY").
  - destruct (FileChange.FileInfo change) as [info'|] eqn:Hi.
    + injection Hl as <-. rewrite (Hc _ eq_refl) in Hid. now apply elem_of_nil in Hid.
    + exact (Hres path info id Hl Hid).
  - destruct (String.eqb _ "DELETE"); [|exact (Hres path info id Hl Hid)].
    destruct (Manager.Files acc.1 !! path) as [stored|] eqn:Hs; [|discriminate].
    injection Hl as <-. exact (Hres path stored id Hs Hid).
Qed.

Lemma addChunkRefs_refsResolve (watch : string) (id : Z) (rs : list ChunkFileInfo.t)
    (m : Manager.t) :
  (exists chunk, chunk ∈ Manager.Chunks m /\ ChunkInfo.ID chunk = id) ->
  refsResolve m ->
  refsResolve (foldl (Engine.addChunkRef watch id) m rs).
Proof.
  revert m. induction rs as [|r rs IH]; intros m Hid Hres; [exact Hres|].
  cbn [foldl]. destruct (addChunkRef_Chunks watch id m r) as (Hchunks & _).
  apply IH; [now rewrite Hchunks|].
  unfold Engine.addChunkRef, Manager.GetFileInfo in *.
  destruct (Manager.Files m !! default "" (Rel watch (ChunkFileInfo.Path r)))
    as [stored|] eqn:Hs; [|exact Hres].
  intros path info id' Hl Hin.
  change (Manager.Chunks (Manager.UpdateFileInfo m ?p ?i)) with (Manager.Chunks m).
  change (Manager.Files (Manager.UpdateFileInfo m ?p ?i)) with (<[p := i]> (Manager.Files m))
    in Hl.
  destruct (decide (default "" (Rel watch (ChunkFileInfo.Path r)) = path)) as [<-|Hne].
  - rewrite lookup_insert_eq in Hl. injection Hl as <-. cbn in Hin.
    apply elem_of_app in Hin as [Hin|Hin].
    + exact (Hres _ stored id' Hs Hin).
    + apply list_elem_of_singleton in Hin as ->. exact Hid.
  - rewrite lookup_insert_ne in Hl by exact Hne. exact (Hres path info id' Hl Hin).
Qed.

Lemma storeChunk_refsResolve (e : Engine.t) (d : Disk) (ch : ChunkData.t) :
  refsResolve (Engine.metadata e) ->
  refsResolve (Engine.metadata (Engine.storeChunk env e d ch).1.1).
Proof.
  intros Hres. unfold Engine.storeChunk.
  destruct (Compressor.Compress (ChunkData.Data ch)) as [compressed|]; [|exact Hres].
  destruct (writeChunkOk env _); [|exact Hres].
  cbn [negb fst Engine.metadata Engine.withMetadata].
  apply addChunkRefs_refsResolve.
  - eexists. split; [apply elem_of_app; right; apply list_elem_of_here|reflexivity].
  - intros path info id Hl Hin. destruct (Hres path info id Hl Hin) as (chunk & Hc & Hi).
    exists chunk. split; [|exact Hi]. apply elem_of_app. now left.
Qed.

Lemma storeChunks_refsResolve (chunks : list ChunkData.t) (e : Engine.t) (d : Disk) :
  refsResolve (Engine.metadata e) ->
  refsResolve (Engine.metadata (Engine.storeChunks env e d chunks).1.1).
Proof.
  revert e d. induction chunks as [|ch chunks IH]; intros e d Hres; [exact Hres|].
  cbn [Engine.storeChunks].
  pose proof (storeChunk_refsResolve e d ch Hres) as Hone.
  destruct (Engine.storeChunk env e d ch) as [[e' d'] [err|]]; [exact Hone|].
  apply IH. exact Hone.
Qed.

Lemma handleChanges_refsResolve (e : Engine.t) (d : Disk) (changes : list FileChange.t) :
  Forall (fun change => forall info, FileChange.FileInfo change = Some info ->
                                     FileInfo.ChunkRefs info = []) changes ->
  refsResolve (Engine.metadata e) ->
  refsResolve (Engine.metadata (Engine.handleChanges env e d changes).1.1).
Proof.
  intros Hall Hres. rewrite handleChanges_shape.
  apply (refsResolve_ext (Engine.metadata (batchStore env e d changes).1.1));
    [apply batchSave_Files | apply (proj1 (batchSave_Chunks env _)) |].
  pose proof (applyChanges_refsResolve (Engine.watchPath e) changes (Engine.metadata e, [])
                Hall Hres) as Hm1.
  unfold batchStore. destruct (0 <? _)%nat; [|exact Hm1].
  apply storeChunks_refsResolve. exact Hm1.
Qed.

(** X12.  The references of the catalog stay resolvable.  If every
    chunk ID a record refers to is the ID of a record of the chunk list,
    this is still so after a full backup and after the batch of a live
    event, also when the batch fails half way. *)
Theorem backups_keep_references_resolvable (e : Engine.t) (d : Disk) (event : FileEvent.t) :
  refsResolve (Engine.metadata e) ->
  refsResolve (Engine.metadata (Engine.PerformFullBackup env e d).1.1)
  /\ refsResolve (Engine.metadata
                    (Engine.handleChanges env e d (Main.changesOfEvent event)).1.1).
Proof.
  intros Hres. split; apply handleChanges_refsResolve; try exact Hres.
  - apply Forall_forall. intros change Hin info Hinfo.
    apply DetectChanges_elem in Hin
      as [(p & i & Hw & _ & ->)
         | [(p & i & st & Hw & _ & _ & _ & ->) | (p & st & _ & _ & _ & ->)]];
      [| |discriminate]; injection Hinfo as <-; unfold walked in Hw;
      destruct (tree env !! _) as [[|data mtime [|]]|]; try discriminate;
      injection Hw as <-; reflexivity.
  - repeat constructor. intros info Hinfo. discriminate.
Qed.

End Catalog.

(** ** The restore engine *)

Section Restoring.
Context `{Hasher} `{Codec}.
Variable renv : RestoreEnv.
Variable d : Disk.
Variable e : Restore.t.

Lemma chunkMap_fold_lookup (chunks : list ChunkInfo.t) (acc : gmap Z ChunkInfo.t) (id : Z) :
  foldl (fun acc chunk => <[ChunkInfo.ID chunk := chunk]> acc) acc chunks !! id
  = match last (filter (fun chunk => ChunkInfo.ID chunk = id) chunks) with
    | Some chunk => Some chunk
    | None => acc !! id
    end.
Proof.
  induction chunks as [|chunk chunks IH] using rev_ind; [reflexivity|].
  rewrite foldl_app, filter_app. cbn [foldl].
  destruct (decide (ChunkInfo.ID chunk = id)) as [Heq|Hne].
  - rewrite filter_cons_True, filter_nil by exact Heq.
    rewrite last_snoc, <- Heq. apply lookup_insert_eq.
  - rewrite filter_cons_False, filter_nil, app_nil_r by exact Hne.
    rewrite lookup_insert_ne by exact Hne. apply IH.
Qed.

(** X13.  The chunk a reference resolves to.  [RestoreAll] looks a
    chunk ID up in a map built from the chunk list in order, so an ID
    resolves to the last record of the list that carries it (an earlier
    record with the same ID is shadowed), and to nothing when no record
    carries it. *)
Theorem chunkMapOf_last_record_wins (chunks : list ChunkInfo.t) (id : Z) :
  Restore.chunkMapOf chunks !! id
  = last (filter (fun chunk => ChunkInfo.ID chunk = id) chunks).
Proof.
  unfold Restore.chunkMapOf. rewrite chunkMap_fold_lookup, lookup_empty.
  now destruct (last _).
Qed.

Variable chunkMap : gmap Z ChunkInfo.t.

Lemma readChunks_Ok (refs : list Z) (fileData data : bytes) :
  Restore.readChunks renv d e chunkMap fileData refs = Ok data <->
  exists payloads,
    Forall2 (fun id payload => Restore.readChunk renv d e chunkMap id = Ok payload)
            refs payloads
    /\ data = (fileData ++ concat payloads)%list.
Proof.
  revert fileData. induction refs as [|id refs IH]; intros fileData; cbn [Restore.readChunks].
  - split.
    + intros [= <-]. exists []. split; [constructor|now rewrite app_nil_r].
    + intros (payloads & Hall & ->). apply Forall2_nil_inv_l in Hall as ->.
      simpl. now rewrite app_nil_r.
  - destruct (Restore.readChunk renv d e chunkMap id) as [payload|err] eqn:Hr; cbn [bind].
    + rewrite IH. split.
      * intros (payloads & Hall & ->). exists (payload :: payloads).
        split; [now constructor|]. simpl. now rewrite app_assoc.
      * intros (payloads & Hall & ->).
        apply Forall2_cons_inv_l in Hall as (p & rest & Hp & Hall & ->).
        assert (p = payload) as -> by congruence.
        exists rest. split; [exact Hall|]. simpl. now rewrite app_assoc.
    + split; [discriminate|]. intros (payloads & Hall & _).
      apply Forall2_cons_inv_l in Hall as (p & rest & Hp & _ & _). congruence.
Qed.

(** X14.  What a restored file is made of.  [restoreFile] gets as far
    as writing exactly when the directory of the target can be made,
    every referenced chunk is found, read, decompressed and has its
    recorded hash, and the write succeeds; then the bytes written are the
    whole payloads of the referenced chunks, end to end in the order of
    [ChunkRefs] (nothing at all for a record without references). *)
Theorem restored_bytes_are_the_chunk_payloads (fileInfo : FileInfo.t) (data : bytes) :
  Restore.fileBytes renv d e chunkMap fileInfo = Ok data <->
  mkdirOk renv (Join (Restore.targetPath e) (FileInfo.Path fileInfo)) = true
  /\ writeOk renv (Join (Restore.targetPath e) (FileInfo.Path fileInfo)) = true
  /\ exists payloads,
       Forall2 (fun id payload => Restore.readChunk renv d e chunkMap id = Ok payload)
               (FileInfo.ChunkRefs fileInfo) payloads
       /\ data = concat payloads.
Proof.
  unfold Restore.fileBytes. cbv zeta.
  destruct (mkdirOk renv _); cbn [negb].
  2:{ split; [discriminate|]. intros [? _]. discriminate. }
  destruct (Restore.readChunks renv d e chunkMap [] (FileInfo.ChunkRefs fileInfo))
    as [fileData|err] eqn:Hr; cbn [bind].
  - apply readChunks_Ok in Hr as (payloads & Hall & ->). simpl.
    destruct (writeOk renv _).
    + split.
      * intros [= <-]. eauto.
      * intros (_ & _ & payloads' & Hall' & ->). f_equal. f_equal.
        clear -Hall Hall'. revert payloads' Hall'.
        induction Hall as [|id p refs ps Hp _ IH]; intros payloads' Hall'.
        -- now apply Forall2_nil_inv_l in Hall' as ->.
        -- apply Forall2_cons_inv_l in Hall' as (p' & rest & Hp' & Hall' & ->).
           f_equal; [congruence|auto].
    + split; [discriminate|]. intros (_ & ? & _). discriminate.
  - split; [discriminate|]. intros (_ & _ & payloads & Hall & _).
    assert (Hok : Restore.readChunks renv d e chunkMap [] (FileInfo.ChunkRefs fileInfo)
                  = Ok ([] ++ concat payloads)%list)
      by (apply readChunks_Ok; eauto).
    congruence.
Qed.

Lemma restore_loop_frame (records : list (string * FileInfo.t))
    (target : gmap string Node) (failed : list (string * error)) (path : string) :
  let out := foldl (Restore.restoreOne renv d e chunkMap) (target, failed) records in
  out.1 !! path = target !! path
  \/ exists kv data,
       kv ∈ records
       /\ FileInfo.IsDeleted kv.2 = false
       /\ path = Join (Restore.targetPath e) (FileInfo.Path kv.2)
       /\ Restore.fileBytes renv d e chunkMap kv.2 = Ok data
       /\ out.1 !! path = Some (restoredNode renv e kv.2 data).
Proof.
  revert target failed. induction records as [|kv records IH]; intros target failed out;
    subst out; cbn [foldl]; [now left|].
  destruct (Restore.restoreOne renv d e chunkMap (target, failed) kv)
    as [target1 failed1] eqn:Hstep.
  pose proof (restoreOne_lookup renv d e chunkMap target failed kv path) as Hlook.
  rewrite Hstep in Hlook. cbn [fst] in Hlook.
  pose proof (IH target1 failed1) as IH1. cbv zeta in IH1.
  destruct IH1 as [Hsame | (kv' & data & Hin & Hlive & Hp & Hb & Ho)].
  - rewrite Hsame, Hlook.
    destruct (decide _) as [Heq|_]; [|now left].
    destruct (FileInfo.IsDeleted kv.2) eqn:Hdel; [now left|].
    destruct (Restore.fileBytes renv d e chunkMap kv.2) as [data|err] eqn:Hb; [|now left].
    right. exists kv, data. repeat split; auto using list_elem_of_here.
  - right. exists kv', data. repeat split; auto using list_elem_of_further.
Qed.

End Restoring.

Section RestoringAll.
Context `{Hasher} `{Codec}.
Variable renv : RestoreEnv.
Variable d : Disk.
Variable e : Restore.t.

(** X15.  What [RestoreAll] leaves under a path of the target tree:
    either what was there before, or the file of a live record of the
    catalog whose target path it is, with all the bytes [restoreFile] put
    together for it.  So it writes no file for a tombstoned record, none
    for a record one of whose chunks fails, and none outside the target
    paths of the live records.  (The directories made on the way are not
    part of the target tree of the model, and a write the operating
    system refuses leaves the path as it was.) *)
Theorem RestoreAll_touches_only_live_records (target : gmap string Node) (path : string) :
  let out := Restore.RestoreAll renv d e target in
  out.1.1 !! path = target !! path
  \/ exists key info data,
       Manager.Files (Restore.metadata e) !! key = Some info
       /\ FileInfo.IsDeleted info = false
       /\ path = Join (Restore.targetPath e) (FileInfo.Path info)
       /\ Restore.fileBytes renv d e
            (Restore.chunkMapOf (Manager.Chunks (Restore.metadata e))) info = Ok data
       /\ out.1.1 !! path = Some (restoredNode renv e info data).
Proof.
  intros out. subst out. unfold Restore.RestoreAll.
  destruct (Restore.ValidateBackup d e); [now left|]. cbn [fst].
  pose proof (restore_loop_frame renv d e
                (Restore.chunkMapOf (Manager.Chunks (Restore.metadata e)))
                (map_to_list (Manager.Files (Restore.metadata e))) target [] path) as Hloop.
  cbv zeta in Hloop.
  destruct Hloop as [Hsame | ([key info] & data & Hin & Hlive & Hp & Hb & Ho)]; [now left|].
  right. exists key, info, data. apply elem_of_map_to_list in Hin. auto.
Qed.


Lemma ListFiles_fold (records : list (string * FileInfo.t)) (counts : nat * nat) :
  let out := foldl (fun counts (kv : string * FileInfo.t) =>
                      if FileInfo.IsDeleted kv.2
                      then (counts.1, S counts.2)
                      else (S counts.1, counts.2)) counts records in
  out.1 = (counts.1 + length (filter (fun kv => FileInfo.IsDeleted kv.2 = false) records))%nat
  /\ (out.1 + out.2 = counts.1 + counts.2 + length records)%nat.
Proof.
  revert counts. induction records as [|kv records IH]; intros counts out; subst out;
    cbn [foldl]; [simpl; lia|].
  match goal with |- context [foldl ?f ?c records] => pose proof (IH c) as IH1 end.
  cbv zeta in IH1. destruct IH1 as [IHa IHd]. rewrite IHa.
  split; [|rewrite <- IHa, IHd].
  - destruct (FileInfo.IsDeleted kv.2) eqn:Hdel; cbn [fst snd].
    + rewrite filter_cons_False by (rewrite Hdel; congruence). reflexivity.
    + rewrite filter_cons_True by (rewrite Hdel; congruence). simpl. lia.
  - destruct (FileInfo.IsDeleted kv.2); cbn [fst snd length]; lia.
Qed.

(** X17.  The summary of [ListFiles] counts every record once: the
    active files are the live records of the catalog, and the active and
    the deleted files together are all its records. *)
Theorem ListFiles_counts_every_record :
  (Restore.ListFiles e).1
    = size (filter (fun kv : string * FileInfo.t => FileInfo.IsDeleted kv.2 = false)
                   (Manager.Files (Restore.metadata e)))
  /\ ((Restore.ListFiles e).1 + (Restore.ListFiles e).2)%nat
     = size (Manager.Files (Restore.metadata e)).
Proof.
  unfold Restore.ListFiles, Manager.GetMetadata.
  change (BackupMetadata.Files (Manager.metadata (Restore.metadata e)))
    with (Manager.Files (Restore.metadata e)).
  pose proof (ListFiles_fold (map_to_list (Manager.Files (Restore.metadata e))) (0%nat, 0%nat))
    as Hf. cbv zeta in Hf. destruct Hf as [Ha Hs]. rewrite Hs, Ha. cbn [fst snd].
  rewrite length_map_to_list. split; [|reflexivity].
  rewrite map_filter_alt, map_size_list_to_map; [reflexivity|].
  apply (sublist_NoDup _ (map_to_list (Manager.Files (Restore.metadata e))).*1).
  - apply NoDup_fst_map_to_list.
  - apply fmap_sublist, sublist_filter.
Qed.

End RestoringAll.

(** ** The watcher: the full scan *)

Section Scan.
Variable fs : gmap string Node.
Variable now : Z.






End Scan.

(** ** The command line *)

(** X19.  The command line selects exactly one operation.  [runApp]
    starts the backup, the restore, the listing or the verification
    exactly when a backup path is given and that mode is the only one
    asked for (the restore also needs a target path); in every other case
    it leaves with a usage error, and it never reaches the end of its
    body without having done one of the two. *)
Theorem runApp_runs_the_one_selected_mode (f : Main.Flags) :
  (Main.runApp f = Main.runBackup <->
     Main.backupPath f <> "" /\ Main.watchPath f <> ""
     /\ Main.listMode f = false /\ Main.verifyMode f = false /\ Main.restoreMode f = false)
  /\ (Main.runApp f = Main.runRestore <->
        Main.backupPath f <> "" /\ Main.restoreMode f = true /\ Main.targetPath f <> ""
        /\ Main.listMode f = false /\ Main.verifyMode f = false /\ Main.watchPath f = "")
  /\ (Main.runApp f = Main.listBackupFiles <->
        Main.backupPath f <> "" /\ Main.listMode f = true
        /\ Main.verifyMode f = false /\ Main.restoreMode f = false /\ Main.watchPath f = "")
  /\ (Main.runApp f = Main.verifyBackup <->
        Main.backupPath f <> "" /\ Main.verifyMode f = true
        /\ Main.listMode f = false /\ Main.restoreMode f = false /\ Main.watchPath f = "")
  /\ Main.runApp f <> Main.Return.
Proof.
  destruct f as [watch backup target refresh restore list verify].
  unfold Main.runApp, Main.modeCount.
  cbn [Main.watchPath Main.backupPath Main.targetPath Main.restoreMode
       Main.listMode Main.verifyMode].
  destruct (String.eqb_spec backup ""), (String.eqb_spec watch ""),
           (String.eqb_spec target ""), restore, list, verify; cbn;
    repeat split; try discriminate; try congruence; try tauto;
    intros; repeat match goal with H : _ /\ _ |- _ => destruct H end;
    try discriminate; try congruence.
Qed.

(** ** A backup followed by a restore *)

Section LoneFile.
Context `{Hasher} `{Codec}.
Variables (watch backup target relPath : string) (data compressed : bytes) (mtime : Z).

Let info : FileInfo.t :=
  FileInfo.mk relPath (len64 data) mtime (sha256Hex data) [] false.






End LoneFile.

(** ** A batch and the disk *)

Section OnDisk.
Context `{Hasher} `{Codec}.
Variable env : Env.





End OnDisk.

(** X22.  Chunks with different IDs never share a file: for IDs that
    are not negative, different IDs give different chunk file names, also
    beyond the six digits of the format. *)
Theorem chunk_files_do_not_collide (backup : string) (a b : Z) :
  0 <= a -> 0 <= b -> a <> b ->
  Join backup (chunkFilename a) <> Join backup (chunkFilename b).
Proof.
  intros Ha Hb Hne Heq. apply Join_inj, chunkFilename_inj in Heq; auto.
Qed.

Lemma chunk_files_do_not_collide_witness :
  Join "/b" (chunkFilename 999999) <> Join "/b" (chunkFilename 1000000).
Proof. apply chunk_files_do_not_collide; lia. Defined.

(** ** The properties above on small inputs *)

Lemma unreadable_file_is_reported_deleted_witness :
  FileChange.mk "a.txt" "DELETE" None
  ∈ Manager.DetectChanges (H:=listingHasher)
      (<["/w/a.txt" := File [x01] 100 false]> smallTree)
      (Manager.UpdateFileInfo (Manager.NewManager 0 "/b") "a.txt"
         (FileInfo.mk "a.txt" 1 100 (string_of_list_byte [x01]) [] false))
      "/w".
Proof.
  apply (@unreadable_file_is_reported_deleted listingHasher
           (<["/w/a.txt" := File [x01] 100 false]> smallTree)
           (Manager.UpdateFileInfo (Manager.NewManager 0 "/b") "a.txt"
              (FileInfo.mk "a.txt" 1 100 (string_of_list_byte [x01]) [] false))
           "/w" "a.txt"
           (FileInfo.mk "a.txt" 1 100 (string_of_list_byte [x01]) [] false) [x01] 100);
    vm_compute; reflexivity.
Defined.

Lemma backups_keep_references_resolvable_witness :
  refsResolve (Engine.metadata firstRun.1.1)
  /\ refsResolve
       (Engine.metadata
          (@Engine.handleChanges listingHasher framingCodec (calmEnv smallTree 10)
             (Engine.NewEngine 5 "/w" "/b") emptyDisk
             (Main.changesOfEvent (FileEvent.mk "/w/a.txt" "MODIFY" 11))).1.1).
Proof.
  apply (@backups_keep_references_resolvable listingHasher framingCodec
           (calmEnv smallTree 10) (Engine.NewEngine 5 "/w" "/b") emptyDisk
           (FileEvent.mk "/w/a.txt" "MODIFY" 11)).
  intros path info id Hl.
  unfold Engine.NewEngine, Manager.NewManager, Manager.Files in Hl. cbn in Hl.
  rewrite lookup_empty in Hl. discriminate.
Defined.

